(** * The Sauce Labs executor of magellan: lock client, tunnel supervisor
      and configuration check (src/executor/sauce.js)

    The module is embedded shallowly.  JavaScript values are an inductive
    type, the [config] object literal is a record, the callbacks the module
    hands to [request], [setTimeout] and [sauceConnectLauncher] are functions
    run against a script of what the outside world answers, and everything
    the module does to the outside world is recorded as a list of events.
    Logger and analytics calls do not influence control flow and are left
    out. *)

From stdpp Require Import base numbers list strings pretty.

Open Scope Z_scope.

#[local] Set Warnings "-register-all".

(** ** JavaScript values *)

Module Js.

(** Numbers are restricted to integers: the module only compares
    millisecond clocks and counts attempts.  They stand for integers that a
    JavaScript number holds exactly (magnitude below 2^53), which print in
    plain decimal. *)
Inductive value :=
| VUndefined
| VNull
| VBool (b : bool)
| VNum (n : Z)
| VStr (s : string)
| VArr (elems : list value)
| VObj (fields : list (string * value)).

(** Errors as the module creates and receives them: [new Error(msg)] and
    the [SyntaxError] raised by [JSON.parse]. *)
Inductive exn :=
| Error (message : string)
| SyntaxError (message : string).

(** [if (v)]. *)
Definition truthy (v : value) : bool :=
  match v with
  | VUndefined | VNull => false
  | VBool b => b
  | VNum n => negb (n =? 0)
  | VStr s => negb (String.eqb s "")
  | VArr _ | VObj _ => true
  end.

Fixpoint assoc (k : string) (fields : list (string * value)) : value :=
  match fields with
  | [] => VUndefined
  | (k', v) :: rest => if String.eqb k k' then v else assoc k rest
  end.

(** [v.k] for a property name [k] that no primitive wrapper or array
    defines ([accepted], [token]); the module reads it from truthy values
    only, so the [TypeError] of [null.k] cannot arise. *)
Definition get (v : value) (k : string) : value :=
  match v with
  | VObj fields => assoc k fields
  | _ => VUndefined
  end.

(** ["" + v]. *)
Fixpoint to_string (v : value) : string :=
  match v with
  | VUndefined => "undefined"
  | VNull => "null"
  | VBool true => "true"
  | VBool false => "false"
  | VNum n => pretty n
  | VStr s => s
  | VObj _ => "[object Object]"
  | VArr elems =>
      (fix join (l : list value) : string :=
         match l with
         | [] => ""
         | x :: rest =>
             let sx := match x with
                       | VUndefined | VNull => ""
                       | _ => to_string x
                       end in
             match rest with
             | [] => sx
             | _ => sx +:+ "," +:+ join rest
             end
         end) elems
  end.

(** ["" + e] for an error object: the name alone when the message is
    empty. *)
Definition exn_to_string (e : exn) : string :=
  match e with
  | Error m =>
      if String.eqb m "" then "Error" else "Error: " +:+ m
  | SyntaxError m =>
      if String.eqb m "" then "SyntaxError" else "SyntaxError: " +:+ m
  end.

(** [s.indexOf(needle) > -1]. *)
Fixpoint includes (needle s : string) : bool :=
  String.prefix needle s ||
  match s with
  | EmptyString => false
  | String _ rest => includes needle rest
  end.

End Js.

Import Js.

(** ** The module-level [config] object (lines 246-265)

    [new Locks(config)] and [new Tunnel(config)] copy it with
    [_.assign({}, options)], so [this.options] is a [config] as well.  The
    three lock timings and [maxTunnels] are number literals that nothing in
    the module reassigns. *)

Record config := {
  username : value;
  accessKey : value;
  sauceConnectVersion : value;
  sauceTunnelId : value;
  sharedSauceParentAccount : value;
  tunnelTimeout : value;
  useTunnels : value;
  fastFailRegexps : value;
  locksServerLocation : value;
  maxTunnels : Z;
  locksOutageTimeout : Z;
  locksPollingInterval : Z;
  locksRequestTimeout : Z
}.

Definition initial_config : config := {|
  username := VNull;
  accessKey := VNull;
  sauceConnectVersion := VNull;
  sauceTunnelId := VNull;
  sharedSauceParentAccount := VNull;
  tunnelTimeout := VNull;
  useTunnels := VNull;
  fastFailRegexps := VNull;
  locksServerLocation := VNull;
  maxTunnels := 1;
  locksOutageTimeout := 1000 * 60 * 5;
  locksPollingInterval := 2500;
  locksRequestTimeout := 2500
|}.

(** [options[k]] by property name: the keys of the literal, and
    [undefined] for every other name. *)
Definition prop (o : config) (k : string) : value :=
  if String.eqb k "username" then username o
  else if String.eqb k "accessKey" then accessKey o
  else if String.eqb k "sauceConnectVersion" then sauceConnectVersion o
  else if String.eqb k "sauceTunnelId" then sauceTunnelId o
  else if String.eqb k "sharedSauceParentAccount" then sharedSauceParentAccount o
  else if String.eqb k "tunnelTimeout" then tunnelTimeout o
  else if String.eqb k "useTunnels" then useTunnels o
  else if String.eqb k "fastFailRegexps" then fastFailRegexps o
  else if String.eqb k "locksServerLocation" then locksServerLocation o
  else if String.eqb k "maxTunnels" then VNum (maxTunnels o)
  else if String.eqb k "locksOutageTimeout" then VNum (locksOutageTimeout o)
  else if String.eqb k "locksPollingInterval" then VNum (locksPollingInterval o)
  else if String.eqb k "locksRequestTimeout" then VNum (locksRequestTimeout o)
  else VUndefined.

(** ** Lock client (class [Locks], lines 23-125) *)

Module Locks.

(** What the lock client does to the outside world. *)
Inductive event :=
| PostForm (url : string) (timeout : Z)
    (* request.post({url, timeout, form: {}}, cb) *)
| Request (method : string) (json : bool) (timeout : Z) (body : value)
    (url : string)
    (* request({method, json, timeout, body, url}, cb) *)
| SetTimeout (delay : Z)
    (* setTimeout(poll, delay) *)
| Callback (err : option exn) (result : value).
    (* callback(err, result); callback() is Callback None VUndefined *)

(** A response body, by what [JSON.parse] does with it. *)
Inductive body :=
| Malformed (why : string)
| WellFormed (v : value).

Definition JSON_parse (b : body) : exn + value :=
  match b with
  | Malformed why => inl (SyntaxError why)
  | WellFormed v => inr v
  end.

(** The arguments [request] passes to its callback: [error] is [null] or an
    error object; a non-2xx status is not an error for [request], it only
    shows in the body. *)
Record reply := {
  error : option exn;
  reply_body : body
}.

(** Whether the operation has called back or still waits for the world. *)
Inductive status := Finished | Waiting.

(** The [try] block of the claim callback (lines 53-72): the events it
    emits, and the exception it raises if any.  The caller's callback is
    taken to return normally. *)
Definition claim_try (r : reply) : list event * option exn :=
  match error r with
  | Some e => ([Callback (Some (Error (exn_to_string e))) VUndefined], None)
  | None =>
      match JSON_parse (reply_body r) with
      | inl e => ([], Some e)
      | inr result =>
          if truthy result then
            if truthy (get result "accepted") then
              ([Callback None (VObj [("token", get result "token")])], None)
            else
              ([Callback (Some (Error "Request not accepted")) VUndefined], None)
          else
            ([Callback (Some (Error
                ("Result from locks server is invalid or empty: '"
                 +:+ to_string result +:+ "'"))) VUndefined], None)
      end
  end.

Definition gave_up (e : exn) : exn :=
  Error ("Gave up trying to get a saucelabs VM from locks server. "
         +:+ exn_to_string e).

(** [poll] (lines 45-97).  The script lists, for each claim request in
    turn, the reply and the value of [Date.now()] when its callback runs;
    when the script is used up the last request is still unanswered.  The
    timer set after a tolerated reply is taken to have fired when the next
    reply of the script is read, so the request it triggers is listed right
    after it; [Polling] below has the timer and a callback that may throw
    as inputs of their own. *)
Fixpoint poll (o : config) (pollingStartTime : Z) (script : list (reply * Z))
  : list event * status :=
  let post := PostForm (to_string (locksServerLocation o) +:+ "/claim")
                       (locksRequestTimeout o) in
  match script with
  | [] => ([post], Waiting)
  | (r, now) :: rest =>
      match claim_try r with
      | (evs, None) => (post :: evs, Finished)
      | (evs, Some e) =>
          if now - pollingStartTime >? locksOutageTimeout o then
            (post :: evs ++ [Callback (Some (gave_up e)) VUndefined], Finished)
          else
            let '(later, st) := poll o pollingStartTime rest in
            (post :: evs ++ SetTimeout (locksPollingInterval o) :: later, st)
      end
  end.

(** [acquire(callback)] (lines 33-103); [now0] is [Date.now()] at the
    call. *)
Definition acquire (o : config) (now0 : Z) (script : list (reply * Z))
  : list event * status :=
  if truthy (locksServerLocation o) then poll o now0 script
  else ([Callback None VUndefined], Finished).

(** [release(token, callback)] (lines 105-124); [answer] is the reply to
    the release request once it has arrived. *)
Definition release (o : config) (token : value) (answer : option reply)
  : list event * status :=
  if truthy (locksServerLocation o) then
    let req := Request "POST" true (locksRequestTimeout o)
                 (VObj [("token", token)])
                 (to_string (locksServerLocation o) +:+ "/release") in
    match answer with
    | None => ([req], Waiting)
    | Some _ => ([req; Callback None VUndefined], Finished)
    end
  else ([Callback None VUndefined], Finished).

Definition is_network (e : event) : bool :=
  match e with
  | PostForm _ _ | Request _ _ _ _ _ => true
  | _ => false
  end.

Definition is_callback (e : event) : bool :=
  match e with
  | Callback _ _ => true
  | _ => false
  end.

Definition count (p : event -> bool) (evs : list event) : nat :=
  length (filter (fun e => p e = true) evs).

End Locks.

(** ** Tunnel supervisor (class [Tunnel], lines 127-244) *)

Module Tunnel.

(** The module-level [let connectFailures = 1] and [let BAILED = false]
    (lines 17 and 21), shared by every [Tunnel] instance of the process.
    [MAX_CONNECT_RETRIES] (line 19) comes from the environment or is 10; it
    is a parameter of the supervisor below. *)
Record retry_state := {
  connectFailures : Z;
  BAILED : bool
}.

Definition initial_retry : retry_state :=
  {| connectFailures := 1; BAILED := false |}.

Definition BASE_SELENIUM_PORT_OFFSET : Z := 56000.

(** What [../settings] provides; [tempDir] stands for
    [path.resolve(settings.tempDir)]. *)
Record Settings := {
  tempDir : string;
  buildId : string;
  debug : bool
}.

(** How the launcher calls back: [(null, sauceConnectProcess)] or an error
    object, whose [message] may be missing. *)
Inductive launcher_result :=
| Up (process : nat)
| Down (message : option string).

(** What a promise is rejected with: [reject(err.message)] passes a string,
    [reject(new Error(...))] an error object. *)
Inductive reason :=
| Message (m : string)
| Err (e : exn).

Inductive promise :=
| Pending
| Resolved
| Rejected (why : reason).

(** One [Tunnel] instance: [this.options] and [this.tunnelInfo], which is
    undefined or [null] ([None]) or [{ process }]. *)
Record tunnel := {
  options : config;
  tunnelInfo : option nat
}.

(** What the supervisors do to the outside world. *)
Inductive event :=
| Launch (sauceOptions : list (string * value))
    (* sauceConnectLauncher(sauceOptions, cb) *)
| ProcessClose (process : nat).
    (* this.tunnelInfo.process.close(cb) *)

(** The process: the shared retry state, the instances, every promise that
    [connect()] or [close()] created (in creation order), the launcher calls
    and the [process.close] calls whose callback has not run yet, and the
    events so far. *)
Record world := {
  retry : retry_state;
  tunnels : list tunnel;
  promises : list promise;
  awaiting : list (nat * nat);   (* (instance, promise of that connect()) *)
  closing : list nat;            (* promise of that close() *)
  trace : list event
}.

(** What happens next: a caller invokes [open()] or [close()] on an
    instance, or the callback of a pending launcher or [process.close] call
    runs.  Each runs to completion before the next, as the single-threaded
    scheduler has it. *)
Inductive input :=
| CallOpen (t : nat)
| LauncherDone (k : nat) (r : launcher_result)
| CallClose (t : nat)
| CloseDone (k : nat).

Definition could_not_start (message : option string) : bool :=
  match message with
  | Some m => negb (String.eqb m "")
              && includes "Could not start Sauce Connect" m
  | None => false
  end.

Definition bailed_error : exn :=
  Error "Bailed due to maximum number of tunnel retries.".

Definition exhausted_error (failures : Z) : exn :=
  Error ("Failed to create a secure sauce tunnel after "
         +:+ pretty failures +:+ " attempts.").

Definition settle (p : nat) (x : promise) (w : world) : world :=
  {| retry := retry w; tunnels := tunnels w;
     promises := <[p := x]> (promises w);
     awaiting := awaiting w; closing := closing w; trace := trace w |}.

Definition set_retry (r : retry_state) (w : world) : world :=
  {| retry := r; tunnels := tunnels w; promises := promises w;
     awaiting := awaiting w; closing := closing w; trace := trace w |}.

Definition set_tunnelInfo (t : nat) (info : option nat) (w : world) : world :=
  {| retry := retry w;
     tunnels := alter (fun tn => {| options := options tn;
                                    tunnelInfo := info |}) t (tunnels w);
     promises := promises w;
     awaiting := awaiting w; closing := closing w; trace := trace w |}.

Section Supervisor.

Variable MAX_CONNECT_RETRIES : Z.
Variable settings : Settings.

(** The [sauceOptions] object built by [connect] (lines 173-188), as the
    list of its properties.  The optional property is copied from
    [this.options.fastFailRegexpss] (line 187). *)
Definition sauceOptions (o : config) : list (string * value) :=
  let tunnelId := sauceTunnelId o in
  let logFilePath := tempDir settings +:+ "/build-" +:+ buildId settings
                     +:+ "_sauceconnect_" +:+ to_string tunnelId +:+ ".log" in
  let base :=
    [ ("username", username o);
      ("accessKey", accessKey o);
      ("tunnelIdentifier", tunnelId);
      ("readyFileId", tunnelId);
      ("verbose", VBool (debug settings));
      ("verboseDebugging", VBool (debug settings));
      ("logfile", VStr logFilePath);
      ("port", VNum BASE_SELENIUM_PORT_OFFSET) ] in
  if truthy (fastFailRegexps o) then
    base ++ [("fastFailRegexps", prop o "fastFailRegexpss")]
  else base.

(** [connect()] (lines 171-226) up to the launcher call: a new promise is
    created and the launcher is started; its callback runs later. *)
Definition connect (t : nat) (o : config) (w : world) : world :=
  {| retry := retry w; tunnels := tunnels w;
     promises := promises w ++ [Pending];
     awaiting := awaiting w ++ [(t, length (promises w))];
     closing := closing w;
     trace := trace w ++ [Launch (sauceOptions o)] |}.

(** The launcher callback (lines 192-224) of the [connect()] call of
    instance [t] whose promise is [p].  In the retry branch the callback
    returns [connect()]: a new promise, which nobody holds, and [p] is left
    as it is. *)
Definition launcher_callback (t p : nat) (o : config) (r : launcher_result)
    (w : world) : world :=
  match r with
  | Down message =>
      if could_not_start message then
        settle p (Rejected (Message (default "" message))) w
      else if BAILED (retry w) then
        settle p (Rejected (Err bailed_error))
          (set_retry {| connectFailures := connectFailures (retry w) + 1;
                        BAILED := BAILED (retry w) |} w)
      else
        let failures := connectFailures (retry w) + 1 in
        if failures >=? MAX_CONNECT_RETRIES then
          settle p (Rejected (Err (exhausted_error failures)))
            (set_retry {| connectFailures := failures; BAILED := true |} w)
        else
          connect t o
            (set_retry {| connectFailures := failures;
                          BAILED := BAILED (retry w) |} w)
  | Up process =>
      settle p Resolved (set_tunnelInfo t (Some process) w)
  end.

(** One step of the process; [None] when the input names an instance or a
    pending call that does not exist. *)
Definition step (w : world) (i : input) : option world :=
  match i with
  | CallOpen t =>
      (* open(), lines 163-229 *)
      tn ← tunnels w !! t;
      Some (connect t (options tn) (set_tunnelInfo t None w))
  | LauncherDone k r =>
      '(t, p) ← awaiting w !! k;
      tn ← tunnels w !! t;
      Some (launcher_callback t p (options tn) r
              {| retry := retry w; tunnels := tunnels w;
                 promises := promises w;
                 awaiting := delete k (awaiting w);
                 closing := closing w; trace := trace w |})
  | CallClose t =>
      (* close(), lines 231-243 *)
      tn ← tunnels w !! t;
      match tunnelInfo tn with
      | Some process =>
          Some {| retry := retry w; tunnels := tunnels w;
                  promises := promises w ++ [Pending];
                  awaiting := awaiting w;
                  closing := closing w ++ [length (promises w)];
                  trace := trace w ++ [ProcessClose process] |}
      | None =>
          Some {| retry := retry w; tunnels := tunnels w;
                  promises := promises w ++ [Resolved];
                  awaiting := awaiting w; closing := closing w;
                  trace := trace w |}
      end
  | CloseDone k =>
      p ← closing w !! k;
      Some (settle p Resolved
              {| retry := retry w; tunnels := tunnels w;
                 promises := promises w; awaiting := awaiting w;
                 closing := delete k (closing w); trace := trace w |})
  end.

Fixpoint run (w : world) (ins : list input) : option world :=
  match ins with
  | [] => Some w
  | i :: rest => w' ← step w i; run w' rest
  end.

End Supervisor.

(** A fresh process with the given instances. *)
Definition start (configs : list config) : world :=
  {| retry := initial_retry;
     tunnels := map (fun c => {| options := c; tunnelInfo := None |}) configs;
     promises := []; awaiting := []; closing := []; trace := [] |}.

Definition is_launch (e : event) : bool :=
  match e with
  | Launch _ => true
  | ProcessClose _ => false
  end.

Definition launches (w : world) : nat :=
  length (filter (fun e => is_launch e = true) (trace w)).

(** *** Predicates on process states *)

(** The shared retry state only moves one way. *)
Definition retry_le (a b : retry_state) : Prop :=
  (BAILED a = true -> BAILED b = true)
  ∧ connectFailures a <= connectFailures b.

(** No pending launcher call and no pending [process.close] call holds the
    promise [p]. *)
Definition unheld (p : nat) (w : world) : Prop :=
  (p < length (promises w))%nat
  ∧ Forall (fun a => a.2 ≠ p) (awaiting w)
  ∧ Forall (fun q => q ≠ p) (closing w).

(** Every promise a pending launcher call holds exists; this holds in
    every process state reachable from a fresh one. *)
Definition wf (w : world) : Prop :=
  Forall (fun a => (a.2 < length (promises w))%nat) (awaiting w).

(** The input is a shutdown acknowledgment. *)
Definition is_ack (i : input) : bool :=
  match i with
  | CloseDone _ => true
  | _ => false
  end.

(** No pending launcher call holds the promise [p]. *)
Definition not_launched (p : nat) (w : world) : Prop :=
  (p < length (promises w))%nat ∧ Forall (fun a => a.2 ≠ p) (awaiting w).

End Tunnel.

(** ** Executor facade: [validateConfig] (lines 341-430) *)

Module Facade.

(** The command-line arguments and environment variables the module
    reads. *)
Record Argv := {
  sauce_browsers : value;
  sauce_browser : value;
  sauce_create_tunnels : value;
  sauce_tunnel_id : value;
  shared_sauce_parent_account : value
}.

Record Env := {
  SAUCE_USERNAME : value;
  SAUCE_ACCESS_KEY : value;
  SAUCE_CONNECT_VERSION : value;
  SAUCE_TUNNEL_CLOSE_TIMEOUT : value;
  SAUCE_TUNNEL_FAST_FAIL_REGEXPS : value;
  LOCKS_SERVER : value
}.

(** The [opts] argument: each of [argv] and [env] overrides the process's
    own when present. *)
Record Opts := {
  opts_argv : option Argv;
  opts_env : option Env
}.

Inductive completion :=
| Returns
| Throws (e : exn).

(** Lines 359-365: a string that ends in a slash loses it. *)
Definition strip_trailing_slash (v : value) : value :=
  match v with
  | VStr s =>
      if (0 <? String.length s)%nat then
        (* charAt(length - 1) === "/" *)
        if String.eqb (String.substring (String.length s - 1) 1 s) "/"
        then VStr (String.substring 0 (String.length s - 1) s)
        else v
      else v
  | _ => v
  end.

Section Validate.

(** [require("marge").argv] and [process.env]. *)
Variable argv : Argv.
Variable process_env : Env.

(** Lines 347-365: the assignments made before any check. *)
Definition assigned (cfg : config) (a : Argv) (e : Env) : config :=
  {| username := SAUCE_USERNAME e;
     accessKey := SAUCE_ACCESS_KEY e;
     sauceConnectVersion := SAUCE_CONNECT_VERSION e;
     sauceTunnelId := sauce_tunnel_id a;
     sharedSauceParentAccount := shared_sauce_parent_account a;
     tunnelTimeout := SAUCE_TUNNEL_CLOSE_TIMEOUT e;
     useTunnels := VBool (truthy (sauce_create_tunnels a));
     fastFailRegexps := SAUCE_TUNNEL_FAST_FAIL_REGEXPS e;
     locksServerLocation := strip_trailing_slash (LOCKS_SERVER e);
     maxTunnels := maxTunnels cfg;
     locksOutageTimeout := locksOutageTimeout cfg;
     locksPollingInterval := locksPollingInterval cfg;
     locksRequestTimeout := locksRequestTimeout cfg |}.

Definition with_tunnel_id (c : config) (id : value) : config :=
  {| username := username c;
     accessKey := accessKey c;
     sauceConnectVersion := sauceConnectVersion c;
     sauceTunnelId := id;
     sharedSauceParentAccount := sharedSauceParentAccount c;
     tunnelTimeout := tunnelTimeout c;
     useTunnels := useTunnels c;
     fastFailRegexps := fastFailRegexps c;
     locksServerLocation := locksServerLocation c;
     maxTunnels := maxTunnels c;
     locksOutageTimeout := locksOutageTimeout c;
     locksPollingInterval := locksPollingInterval c;
     locksRequestTimeout := locksRequestTimeout c |}.

(** [validateConfig(opts)]: the module-level [config] after the call, and
    how the call completed (it returns that same [config]).  [guid] is what
    [guid()] yields if it is called. *)
Definition validateConfig (cfg : config) (opts : Opts) (guid : string)
  : config * completion :=
  let a := default argv (opts_argv opts) in
  let e := default process_env (opts_env opts) in
  let c := assigned cfg a e in
  if truthy (sauce_browsers a) || truthy (sauce_browser a) then
    (* parameterWarnings: username and accessKey are required *)
    let valid := truthy (prop c "username") && truthy (prop c "accessKey") in
    if negb valid then
      (c, Throws (Error "Missing configuration for Saucelabs connection."))
    else if truthy (sauce_create_tunnels a)
            && truthy (sauce_tunnel_id a) then
      (c, Throws (Error ("Only one Saucelabs tunnel arg is allowed, "
                         +:+ "--sauce_tunnel_id or --create_tunnels.")))
    else if truthy (sauce_create_tunnels a)
            && truthy (shared_sauce_parent_account a) then
      (c, Throws (Error
            "--shared_sauce_parent_account only works with --sauce_tunnel_id."))
    else if negb (truthy (sauceTunnelId c)) && truthy (useTunnels c) then
      (with_tunnel_id c (VStr guid), Returns)
    else (c, Returns)
  else (c, Returns).

End Validate.

End Facade.

(** ** Promise chains

    The state of a promise as its holder sees it, and the two ways the
    module chains promises. *)

Module Promise.

Inductive outcome (E A : Type) :=
| Waits
| Fulfils (v : A)
| Rejects (why : E).

Arguments Waits {E A}.
Arguments Fulfils {E A} v.
Arguments Rejects {E A} why.

(** [p.then(f)]. *)
Definition then_ {E A B} (p : outcome E A) (f : A -> outcome E B)
  : outcome E B :=
  match p with
  | Waits => Waits
  | Fulfils v => f v
  | Rejects why => Rejects why
  end.

(** [p.catch(h)]. *)
Definition catch_ {E A} (p : outcome E A) (h : E -> outcome E A)
  : outcome E A :=
  match p with
  | Rejects why => h why
  | _ => p
  end.

End Promise.

(** ** Executor facade: [setup] and [Tunnel.initialize]
       (lines 132-161 and 274-308) *)

Module Lifecycle.

Import Tunnel Promise.

(** How [sauceConnectLauncher.download] calls back. *)
Inductive download_result :=
| Downloaded
| DownloadFailed (err : exn).

(** [initialize()] (lines 132-161): whether the download was started, and
    the promise it returns; [d] is the download's answer once it is in. *)
Definition initialize (o : config) (d : option download_result)
  : bool * outcome reason unit :=
  if negb (truthy (username o)) then
    (false, Rejects (Message
       "Sauce tunnel support is missing configuration: Sauce username."))
  else if negb (truthy (accessKey o)) then
    (false, Rejects (Message
       "Sauce tunnel support is missing configuration: Sauce access key."))
  else
    (true, match d with
           | None => Waits
           | Some Downloaded => Fulfils tt
           | Some (DownloadFailed err) => Rejects (Err err)
           end).

(** [new Tunnel(config)]: one more instance, without a subprocess. *)
Definition new_Tunnel (cfg : config) (w : world) : world :=
  {| retry := retry w;
     tunnels := tunnels w ++ [{| options := cfg; tunnelInfo := None |}];
     promises := promises w;
     awaiting := awaiting w; closing := closing w; trace := trace w |}.

(** A promise of the table as its holder sees it. *)
Definition promise_outcome (w : world) (p : nat) : outcome reason unit :=
  match promises w !! p with
  | Some Resolved => Fulfils tt
  | Some (Rejected why) => Rejects why
  | _ => Waits
  end.

Section Setup.

Variable MAX_CONNECT_RETRIES : Z.
Variable settings : Settings.

(** [setup()] (lines 274-308) in the process state [w], followed by the
    inputs [ins]: the process state then, whether the download was started,
    and the promise [setup] returned.  With tunnels the promise is
    [initialize().then(open).then(log).catch(h)], where [h] returns
    [new Promise((reject) => { reject(err); })]: the executor's first
    argument is the resolving function, so that promise is fulfilled with
    [err].  [Fulfils None] is fulfilment with [undefined]. *)
Definition setup (cfg : config) (d : option download_result) (w : world)
    (ins : list input) : option (world * bool * outcome reason (option reason)) :=
  if truthy (useTunnels cfg) then
    let t := length (tunnels w) in
    let w0 := new_Tunnel cfg w in
    let '(started, init) := initialize cfg d in
    w1 ← match init with
         | Fulfils _ => step MAX_CONNECT_RETRIES settings w0 (CallOpen t)
         | _ => Some w0
         end;
    w2 ← run MAX_CONNECT_RETRIES settings w1 ins;
    let opened := promise_outcome w2 (length (promises w0)) in
    Some (w2, started,
          catch_ (then_ (then_ init (fun _ => opened))
                        (fun _ => Fulfils None))
                 (fun err => Fulfils (Some err)))
  else
    w2 ← run MAX_CONNECT_RETRIES settings w ins;
    Some (w2, false, Fulfils None).

End Setup.

End Lifecycle.

(** ** Executor facade: [getProfiles] (lines 432-472) *)

Module Profiles.

Import Promise.

(** [s.split(",")]. *)
Fixpoint split_commas (s : string) : list string :=
  match s with
  | EmptyString => [EmptyString]
  | String c rest =>
      if String.eqb (String c EmptyString) ","
      then EmptyString :: split_commas rest
      else match split_commas rest with
           | first :: others => String c first :: others
           | [] => [String c EmptyString]
           end
  end.

(** Why the promise of [getProfiles] is rejected: [SauceBrowsers.initialize]
    failed, the catalogue lookup threw, or [sauce_browsers] has no [split]
    method. *)
Inductive failure :=
| InitFailed (why : value)
| LookupThrew (e : exn)
| NotAFunction (method : string).

Section Catalogue.

(** [SauceBrowsers.get] of the guacamole package: the matching entries, or
    an exception. *)
Variable SauceBrowsers_get : value -> exn + list value.

(** [a[0]]. *)
Definition first (a : list value) : value := default VUndefined (head a).

(** The profile object built for one browser id (lines 438-445 and
    453-461). *)
Definition profile (id : value) : exn + value :=
  match SauceBrowsers_get (VObj [("id", id)]) with
  | inl e => inl e
  | inr found =>
      inr (VObj [("desiredCapabilities", first found);
                 ("executor", VStr "sauce");
                 ("nightwatchEnv", VStr "sauce");
                 ("id", id)])
  end.

(** The [_.forEach] over the split argument (lines 452-464): the first
    lookup that throws ends it. *)
Fixpoint profiles (browsers : list string) : exn + list value :=
  match browsers with
  | [] => inr []
  | browser :: rest =>
      match profile (VStr browser) with
      | inl e => inl e
      | inr p =>
          match profiles rest with
          | inl e => inl e
          | inr ps => inr (p :: ps)
          end
      end
  end.

(** [getProfiles(opts)]; [init] is the promise of
    [SauceBrowsers.initialize()], the two values are
    [opts.yargs.argv.sauce_browser] and [opts.yargs.argv.sauce_browsers]. *)
Definition getProfiles (sauce_browser sauce_browsers : value)
    (init : outcome failure unit) : outcome failure value :=
  then_ init (fun _ =>
    if truthy sauce_browser then
      match profile sauce_browser with
      | inl e => Rejects (LookupThrew e)
      | inr p => Fulfils p
      end
    else if truthy sauce_browsers then
      match sauce_browsers with
      | VStr s =>
          match profiles (split_commas s) with
          | inl e => Rejects (LookupThrew e)
          | inr ps => Fulfils (VArr ps)
          end
      | _ => Rejects (NotAFunction "split")
      end
    else Fulfils VUndefined).

End Catalogue.

(** The [id] properties of a list of profiles, joined with commas. *)
Definition ids (ps : list value) : list string :=
  map (fun p => to_string (get p "id")) ps.

End Profiles.

(** ** Counting what a run does *)

Section Counting.

Import Tunnel.

Definition timers (evs : list Locks.event) : nat :=
  length (filter (fun e => match e with
                           | Locks.SetTimeout _ => true
                           | _ => false
                           end = true) evs).

Definition is_open (i : input) : bool :=
  match i with
  | CallOpen _ => true
  | _ => false
  end.

(** The launcher reports a failure that is not a could-not-start one. *)
Definition is_transient_failure (i : input) : bool :=
  match i with
  | LauncherDone _ (Down message) => negb (could_not_start message)
  | _ => false
  end.

Definition occurrences (p : input -> bool) (ins : list input) : Z :=
  Z.of_nat (length (filter (fun i => p i = true) ins)).

(** The promises that a pending launcher call or a pending
    [process.close] call will settle. *)
Definition held (w : world) : list nat := (awaiting w).*2 ++ closing w.

(** Each of them is held once and is still pending. *)
Definition sound (w : world) : Prop :=
  NoDup (held w) ∧ Forall (fun q => promises w !! q = Some Pending) (held w).

End Counting.

(** ** The lock client step by step (lines 33-103)

    [Locks.poll] above reads a script of replies, takes the caller's
    callback to return normally and takes the timer between two requests to
    have fired.  Here neither is assumed.  The callback is called inside the
    [try] block, so an exception it raises is caught like any other; and a
    request is made only when the timer fires.  The inputs are the reply to
    the outstanding request and the firing of the pending timer. *)

Module Polling.

Import Locks.

(** What the caller's callback does at its [n]-th invocation (counting from
    0): it returns normally ([None]) or throws an error object. *)
Definition behaviour := nat -> option exn.

(** Where [acquire] stands: a claim request is unanswered, the timer is
    pending, the callback has returned normally, or an exception of the
    callback has escaped the handler. *)
Inductive phase :=
| AwaitReply
| AwaitTimer
| Done
| Escaped (e : exn).

Record state := {
  phase_of : phase;
  calls : nat;              (* invocations of the callback so far *)
  emitted : list event
}.

Inductive input :=
| Reply (r : reply) (now : Z)   (* [now] is Date.now() in the handler *)
| TimerFires.

(** The [try] block of the claim callback up to its call of the callback
    (lines 54-72): the exception [JSON.parse] raises, or the arguments of
    the call. *)
Definition claim_outcome (r : reply) : exn + (option exn * value) :=
  match error r with
  | Some e => inr (Some (Error (exn_to_string e)), VUndefined)
  | None =>
      match JSON_parse (reply_body r) with
      | inl e => inl e
      | inr result =>
          if truthy result then
            if truthy (get result "accepted") then
              inr (None, VObj [("token", get result "token")])
            else
              inr (Some (Error "Request not accepted"), VUndefined)
          else
            inr (Some (Error
                   ("Result from locks server is invalid or empty: '"
                    +:+ to_string result +:+ "'")), VUndefined)
      end
  end.

Definition set_phase (p : phase) (s : state) : state :=
  {| phase_of := p; calls := calls s; emitted := emitted s |}.

Definition emit (e : event) (s : state) : state :=
  {| phase_of := phase_of s; calls := calls s;
     emitted := emitted s ++ [e] |}.

Section Machine.

Variable o : config.
Variable pollingStartTime : Z.
Variable callback : behaviour.

(** [callback(err, result)]: the state after the call, and what the call
    threw if it did. *)
Definition invoke (err : option exn) (result : value) (s : state)
  : state * option exn :=
  ({| phase_of := phase_of s; calls := S (calls s);
      emitted := emitted s ++ [Callback err result] |},
   callback (calls s)).

(** [poll()] up to its request (lines 45-52). *)
Definition post (s : state) : state :=
  set_phase AwaitReply
    (emit (PostForm (to_string (locksServerLocation o) +:+ "/claim")
                    (locksRequestTimeout o)) s).

(** The [catch] block (lines 73-95).  An exception of the callback called
    here is not caught by anything. *)
Definition on_catch (e : exn) (now : Z) (s : state) : state :=
  if now - pollingStartTime >? locksOutageTimeout o then
    let '(s', thrown) := invoke (Some (gave_up e)) VUndefined s in
    match thrown with
    | None => set_phase Done s'
    | Some e' => set_phase (Escaped e') s'
    end
  else
    set_phase AwaitTimer (emit (SetTimeout (locksPollingInterval o)) s).

(** The handler of the claim request (lines 52-96). *)
Definition on_reply (r : reply) (now : Z) (s : state) : state :=
  match claim_outcome r with
  | inl e => on_catch e now s
  | inr (err, result) =>
      let '(s', thrown) := invoke err result s in
      match thrown with
      | None => set_phase Done s'
      | Some e => on_catch e now s'
      end
  end.

(** One input; [None] when there is no request or timer it could belong
    to. *)
Definition step (s : state) (i : input) : option state :=
  match phase_of s, i with
  | AwaitReply, Reply r now => Some (on_reply r now s)
  | AwaitTimer, TimerFires => Some (post s)
  | _, _ => None
  end.

Fixpoint run (s : state) (ins : list input) : option state :=
  match ins with
  | [] => Some s
  | i :: rest => s' ← step s i; run s' rest
  end.

(** [acquire(callback)] up to its return (lines 33-103). *)
Definition begin : state :=
  let fresh := {| phase_of := AwaitReply; calls := 0; emitted := [] |} in
  if truthy (locksServerLocation o) then post fresh
  else
    let '(s', thrown) := invoke None VUndefined fresh in
    match thrown with
    | None => set_phase Done s'
    | Some e => set_phase (Escaped e) s'
    end.

(** The inputs that [Locks.poll] stands for: each reply of the script it
    reads, and the timer fired after each reply it tolerates. *)
Fixpoint schedule (script : list (reply * Z)) : list input :=
  match script with
  | [] => []
  | (r, now) :: rest =>
      Reply r now ::
      match claim_outcome r with
      | inl _ =>
          if now - pollingStartTime >? locksOutageTimeout o then []
          else TimerFires :: schedule rest
      | inr _ => []
      end
  end.

(** How many of the first [n] invocations of the callback returned
    normally. *)
Fixpoint normal_returns (n : nat) : nat :=
  match n with
  | O => O
  | S k => (normal_returns k
            + match callback k with None => 1 | Some _ => 0 end)%nat
  end.

End Machine.

Definition is_reply (i : input) : bool :=
  match i with
  | Reply _ _ => true
  | TimerFires => false
  end.

(** The replies and the timer firings among the inputs. *)
Definition replies (ins : list input) : nat :=
  length (filter (fun i => is_reply i = true) ins).

Definition firings (ins : list input) : nat :=
  length (filter (fun i => is_reply i = false) ins).

Definition awaits_reply (s : state) : nat :=
  match phase_of s with AwaitReply => 1%nat | _ => 0%nat end.

Definition awaits_timer (s : state) : nat :=
  match phase_of s with AwaitTimer => 1%nat | _ => 0%nat end.

Definition is_done (s : state) : nat :=
  match phase_of s with Done => 1%nat | _ => 0%nat end.

(** The callback that always returns normally. *)
Definition returns : behaviour := fun _ => None.

End Polling.

(** * Sample inputs *)

(** A configuration as [validateConfig] leaves it for a run against a lock
    server and with a tunnel of its own. *)
Definition sample_config : config := {|
  username := VStr "alice";
  accessKey := VStr "s3cret";
  sauceConnectVersion := VUndefined;
  sauceTunnelId := VStr "tunnel-1";
  sharedSauceParentAccount := VUndefined;
  tunnelTimeout := VUndefined;
  useTunnels := VBool true;
  fastFailRegexps := VStr "Could not connect";
  locksServerLocation := VStr "http://locks:3000";
  maxTunnels := 1;
  locksOutageTimeout := 1000 * 60 * 5;
  locksPollingInterval := 2500;
  locksRequestTimeout := 2500
|}.

Section LockSamples.

Import Locks.

(** Replies of the kinds the lock server and the transport produce. *)
Definition timed_out : reply :=
  {| error := Some (Error "ETIMEDOUT"); reply_body := Malformed "" |}.

Definition not_accepted : reply :=
  {| error := None;
     reply_body := WellFormed
       (VObj [("accepted", VBool false);
              ("message", VStr "Claim rejected. No VMs available.")]) |}.

Definition accepted (token : value) : reply :=
  {| error := None;
     reply_body := WellFormed
       (VObj [("accepted", VBool true); ("token", token);
              ("message", VStr "Claim accepted")]) |}.

Definition not_json : reply :=
  {| error := None; reply_body := Malformed "Unexpected token < in JSON" |}.

Definition empty_reply : reply :=
  {| error := None; reply_body := WellFormed VNull |}.

Definition claim_post o : event :=
  PostForm (to_string (locksServerLocation o) +:+ "/claim")
           (locksRequestTimeout o).

End LockSamples.

Section TunnelSamples.

Import Tunnel.

(** [MAX_CONNECT_RETRIES] when [SAUCE_CONNECT_NUM_RETRIES] is not set
    (line 19). *)
Definition default_MAX_CONNECT_RETRIES : Z := 10.

Definition sample_settings : Settings :=
  {| tempDir := "/tmp/magellan"; buildId := "42"; debug := false |}.

Definition transient : launcher_result :=
  Down (Some "Sauce Connect tunnel did not come up in time").

Definition fatal_message : string :=
  "Could not start Sauce Connect. Exit code 1".

Definition fatal : launcher_result := Down (Some fatal_message).

Definition run10 : world -> list input -> option world :=
  run default_MAX_CONNECT_RETRIES sample_settings.

(** One [open()] in a fresh process whose launcher fails transiently [n]
    times in a row. *)
Definition one_open_failing (n : nat) : option world :=
  run10 (start [sample_config])
        (CallOpen 0 :: repeat (LauncherDone 0 transient) n).

(** Ten instances call [open()] at once in a fresh process; then the
    launcher calls fail transiently, oldest first, [n] times. *)
Definition ten_opens_failing (n : nat) : option world :=
  run10 (start (repeat sample_config 10))
        (map CallOpen (seq 0 10) ++ repeat (LauncherDone 0 transient) n).

(** A process with two instances in which the first has used up the retry
    budget. *)
Definition tripped : option world :=
  run10 (start [sample_config; sample_config])
        (CallOpen 0 :: repeat (LauncherDone 0 transient) 9).

(** One [open()] in a fresh process: a transient failure, then a
    could-not-start failure of the retry. *)
Definition retried_then_fatal : option world :=
  run10 (start [sample_config])
        [CallOpen 0; LauncherDone 0 transient; LauncherDone 0 fatal].

(** A process in which the latch is set while a launcher call of its one
    instance is still pending. *)
Definition latched : world :=
  {| retry := {| connectFailures := 10; BAILED := true |};
     tunnels := [{| options := sample_config; tunnelInfo := None |}];
     promises := [Pending];
     awaiting := [(0%nat, 0%nat)];
     closing := [];
     trace := [Launch (sauceOptions sample_settings sample_config)] |}.

(** A process whose one instance holds the subprocess 7. *)
Definition opened : world :=
  {| retry := initial_retry;
     tunnels := [{| options := sample_config; tunnelInfo := Some 7%nat |}];
     promises := [Resolved];
     awaiting := [];
     closing := [];
     trace := [Launch (sauceOptions sample_settings sample_config)] |}.

End TunnelSamples.

Section ConfigSamples.

Import Facade.

(** The guard of line 383: [--sauce_browsers] or [--sauce_browser] is
    given. *)
Definition sauce_requested (a : Argv) : bool :=
  truthy (sauce_browsers a) || truthy (sauce_browser a).

(** A run without any sauce browser, with no credentials and with both
    tunnel flags; and a sauce run without credentials. *)
Definition no_sauce_argv : Argv :=
  {| sauce_browsers := VUndefined;
     sauce_browser := VUndefined;
     sauce_create_tunnels := VBool true;
     sauce_tunnel_id := VStr "shared-tunnel";
     shared_sauce_parent_account := VStr "parent" |}.

Definition sauce_argv : Argv :=
  {| sauce_browsers := VStr "chrome_latest,firefox_latest";
     sauce_browser := VUndefined;
     sauce_create_tunnels := VBool true;
     sauce_tunnel_id := VUndefined;
     shared_sauce_parent_account := VUndefined |}.

Definition empty_env : Env :=
  {| SAUCE_USERNAME := VUndefined;
     SAUCE_ACCESS_KEY := VUndefined;
     SAUCE_CONNECT_VERSION := VUndefined;
     SAUCE_TUNNEL_CLOSE_TIMEOUT := VUndefined;
     SAUCE_TUNNEL_FAST_FAIL_REGEXPS := VUndefined;
     LOCKS_SERVER := VStr "http://locks:3000/" |}.

Definition sauce_env : Env :=
  {| SAUCE_USERNAME := VStr "alice";
     SAUCE_ACCESS_KEY := VStr "s3cret";
     SAUCE_CONNECT_VERSION := VUndefined;
     SAUCE_TUNNEL_CLOSE_TIMEOUT := VUndefined;
     SAUCE_TUNNEL_FAST_FAIL_REGEXPS := VUndefined;
     LOCKS_SERVER := VUndefined |}.

Definition no_opts : Opts := {| opts_argv := None; opts_env := None |}.

End ConfigSamples.

Section MoreSamples.

Import Facade.


(** A catalogue that knows one browser and throws for another. *)
Definition sample_catalogue (query : value) : exn + list value :=
  if String.eqb (to_string (get query "id")) "chrome_latest" then
    inr [VObj [("browserName", VStr "chrome")]]
  else if String.eqb (to_string (get query "id")) "ie_6" then
    inl (Error "unsupported browser")
  else inr [].

(** An environment with credentials and a lock server address that ends
    in a slash. *)
Definition slash_env : Env :=
  {| SAUCE_USERNAME := VStr "alice";
     SAUCE_ACCESS_KEY := VStr "s3cret";
     SAUCE_CONNECT_VERSION := VUndefined;
     SAUCE_TUNNEL_CLOSE_TIMEOUT := VUndefined;
     SAUCE_TUNNEL_FAST_FAIL_REGEXPS := VUndefined;
     LOCKS_SERVER := VStr "http://locks:3000/" |}.


End MoreSamples.

(** * Properties *)

(** ** Lock client *)

Section LockClient.

Import Locks.

Implicit Types (o : config) (r : reply) (script : list (reply * Z)).

Lemma acquire_with_server o now0 script :
  truthy (locksServerLocation o) = true ->
  acquire o now0 script = poll o now0 script.
Proof. unfold acquire. by intros ->. Qed.

(** A transport error ends the poll at once, whatever the clock says. *)
Lemma poll_transport_error o t0 e b now rest :
  poll o t0 (({| error := Some e; reply_body := b |}, now) :: rest)
  = ([claim_post o; Callback (Some (Error (exn_to_string e))) VUndefined],
     Finished).
Proof. reflexivity. Qed.

(** So does a well-formed reply that does not accept the claim. *)
Lemma poll_not_accepted o t0 result now rest :
  truthy result = true ->
  truthy (get result "accepted") = false ->
  poll o t0 (({| error := None; reply_body := WellFormed result |}, now) :: rest)
  = ([claim_post o; Callback (Some (Error "Request not accepted")) VUndefined],
     Finished).
Proof. intros Hr Ha. cbn. unfold claim_try. cbn. by rewrite Hr, Ha. Qed.

(** A body that does not parse is tolerated inside the outage window ... *)
Lemma poll_malformed_retries o t0 why now rest :
  now - t0 <= locksOutageTimeout o ->
  poll o t0 (({| error := None; reply_body := Malformed why |}, now) :: rest)
  = (claim_post o :: SetTimeout (locksPollingInterval o)
       :: fst (poll o t0 rest),
     snd (poll o t0 rest)).
Proof.
  intros Hin. cbn.
  destruct (Z.gtb_spec (now - t0) (locksOutageTimeout o)) as [Hgt|_]; [lia|].
  by destruct (poll o t0 rest).
Qed.

(** ... and ends the poll with the gave-up error outside of it. *)
Lemma poll_malformed_gives_up o t0 why now rest :
  now - t0 > locksOutageTimeout o ->
  poll o t0 (({| error := None; reply_body := Malformed why |}, now) :: rest)
  = ([claim_post o; Callback (Some (gave_up (SyntaxError why))) VUndefined],
     Finished).
Proof.
  intros Hout. cbn.
  destruct (Z.gtb_spec (now - t0) (locksOutageTimeout o)) as [_|Hle]; [done|lia].
Qed.

(** Whatever [poll] hands to the callback without an error is the object
    [{ token: result.token }] built from an accepted reply. *)
Lemma poll_success_shape o t0 script claim :
  Callback None claim ∈ (poll o t0 script).1 ->
  ∃ result, truthy (get result "accepted") = true
            ∧ claim = VObj [("token", get result "token")].
Proof.
  induction script as [|[r now] rest IH]; cbn.
  - intros Hin. apply list_elem_of_singleton in Hin. discriminate.
  - unfold claim_try. destruct r as [[e|] b]; cbn.
    + intros Hin. apply elem_of_cons in Hin as [Heq|Hin]; [discriminate|].
      apply list_elem_of_singleton in Hin. discriminate.
    + destruct b as [why|result]; cbn.
      * destruct (_ >? _).
        -- intros Hin. apply elem_of_cons in Hin as [Heq|Hin]; [discriminate|].
           apply list_elem_of_singleton in Hin. discriminate.
        -- destruct (poll o t0 rest) as [later st]. cbn in *.
           intros Hin. apply elem_of_cons in Hin as [Heq|Hin]; [discriminate|].
           apply elem_of_cons in Hin as [Heq|Hin]; [discriminate|]. auto.
      * destruct (truthy result); [destruct (truthy (get result "accepted")) eqn:Ha|];
          cbn; intros Hin;
          (apply elem_of_cons in Hin as [Heq|Hin]; [discriminate|]);
          apply list_elem_of_singleton in Hin; try discriminate.
        injection Hin as ->. eauto.
Qed.

(** C1 (fails on the code).  With a lock server configured, a claim request
    that ends in a transport error, one that the server answers with
    [{accepted:false}], and one whose body parses to [null], each end
    [acquire] at once with that error handed to the callback: no timer is
    set and no second request is made, although only 100 ms of the
    five-minute outage window have passed.  Only a body that does not parse
    is tolerated and polled again. *)
Theorem acquire_does_not_retry_errors :
  acquire sample_config 0 [(timed_out, 100); (accepted (VStr "abc"), 2700)]
  = ([PostForm "http://locks:3000/claim" 2500;
      Callback (Some (Error "Error: ETIMEDOUT")) VUndefined], Finished)
  ∧ acquire sample_config 0 [(not_accepted, 100); (accepted (VStr "abc"), 2700)]
    = ([PostForm "http://locks:3000/claim" 2500;
        Callback (Some (Error "Request not accepted")) VUndefined], Finished)
  ∧ acquire sample_config 0 [(empty_reply, 100); (accepted (VStr "abc"), 2700)]
    = ([PostForm "http://locks:3000/claim" 2500;
        Callback (Some (Error
          "Result from locks server is invalid or empty: 'null'")) VUndefined],
       Finished)
  ∧ acquire sample_config 0 [(not_json, 100); (accepted (VStr "abc"), 2700)]
    = ([PostForm "http://locks:3000/claim" 2500;
        SetTimeout 2500;
        PostForm "http://locks:3000/claim" 2500;
        Callback None (VObj [("token", VStr "abc")])], Finished).
Proof. repeat split; reflexivity. Qed.

(** C4.  Whatever the token and whatever answer the release request gets
    (any [error], any body), [release] has called its callback exactly once
    when that answer is in, with no error argument, and that is all it does
    besides the request; before the answer is in it has called it at most
    once.  No path of [release] raises. *)
Theorem release_calls_back_exactly_once o (token : value) r :
  (release o token (Some r)).2 = Finished
  ∧ filter (fun e => is_callback e = true) (release o token (Some r)).1
    = [Callback None VUndefined]
  ∧ count is_callback (release o token (Some r)).1 = 1%nat
  ∧ (count is_callback (release o token None).1 <= 1)%nat.
Proof.
  unfold release, count.
  destruct (truthy (locksServerLocation o)); cbn; repeat split; try done.
  case_decide; [done|cbn; lia].
Qed.

(** C6.  With a lock server configured, [release(t)] makes one request: a
    POST to [/release] whose JSON body is [{ token: t }], for every [t].  In
    particular the value [acquire] hands to the callback on an accepted
    claim, which is the object [{ token: result.token }], is the [token]
    property of the body when it is passed on to [release]. *)
Theorem release_body_carries_token o (t : value) (answer : option reply) :
  truthy (locksServerLocation o) = true ->
  filter (fun e => is_network e = true) (release o t answer).1
  = [Request "POST" true (locksRequestTimeout o) (VObj [("token", t)])
       (to_string (locksServerLocation o) +:+ "/release")]
  ∧ get (VObj [("token", t)]) "token" = t
  ∧ (∀ now0 script,
       Callback None t ∈ (acquire o now0 script).1 ->
       ∃ result, truthy (get result "accepted") = true
                 ∧ t = VObj [("token", get result "token")]).
Proof.
  intros Hs. split; [|split].
  - unfold release. rewrite Hs. by destruct answer.
  - reflexivity.
  - intros now0 script. rewrite acquire_with_server by done.
    apply poll_success_shape.
Qed.

Lemma release_body_carries_token_witness :
  let claim := VObj [("token", VStr "abc")] in
  filter (fun e => is_network e = true)
    (release sample_config claim (Some timed_out)).1
  = [Request "POST" true 2500 (VObj [("token", claim)])
       "http://locks:3000/release"]
  ∧ ∃ result, truthy (get result "accepted") = true
              ∧ claim = VObj [("token", get result "token")].
Proof.
  intros claim.
  pose proof (release_body_carries_token sample_config claim
                (Some timed_out) eq_refl) as (Hreq & _ & Hround).
  split; [exact Hreq|].
  apply (Hround 0 [(not_json, 100); (accepted (VStr "abc"), 2700)]).
  vm_compute. do 3 apply list_elem_of_further. apply list_elem_of_here.
Defined.

(** C8.  When [locksServerLocation] is unset (or otherwise falsy),
    [acquire] only calls its callback, with no arguments, and so does
    [release]; neither makes a request. *)
Theorem no_server_no_network o now0 script (token : value)
    (answer : option reply) :
  truthy (locksServerLocation o) = false ->
  acquire o now0 script = ([Callback None VUndefined], Finished)
  ∧ release o token answer = ([Callback None VUndefined], Finished)
  ∧ count is_network (acquire o now0 script).1 = 0%nat
  ∧ count is_network (release o token answer).1 = 0%nat.
Proof. unfold acquire, release. by intros ->. Qed.

Lemma no_server_no_network_witness :
  acquire initial_config 0 [(timed_out, 100)]
  = ([Callback None VUndefined], Finished)
  ∧ release initial_config (VStr "abc") None
    = ([Callback None VUndefined], Finished).
Proof.
  pose proof (no_server_no_network initial_config 0 [(timed_out, 100)]
                (VStr "abc") None eq_refl) as (Ha & Hr & _).
  exact (conj Ha Hr).
Defined.

End LockClient.

(** ** Tunnel supervisor *)

Section TunnelSupervisor.

Import Tunnel.

Variable MAX_CONNECT_RETRIES : Z.
Variable settings : Settings.

#[local] Abbreviation step := (step MAX_CONNECT_RETRIES settings).
#[local] Abbreviation run := (run MAX_CONNECT_RETRIES settings).
#[local] Abbreviation launcher_callback :=
  (launcher_callback MAX_CONNECT_RETRIES settings).

Implicit Types (w : world) (i : input) (ins : list input).

Lemma retry_le_refl a : retry_le a a.
Proof. split; [done|lia]. Qed.

Lemma retry_le_trans a b c : retry_le a b -> retry_le b c -> retry_le a c.
Proof. intros [H1 H2] [H3 H4]. split; [auto|lia]. Qed.

Lemma launcher_callback_retry_le t p o r w :
  retry_le (retry w) (retry (launcher_callback t p o r w)).
Proof.
  unfold launcher_callback, retry_le.
  destruct r as [process|message]; cbn; [split; [done|lia]|].
  destruct (could_not_start message); cbn; [split; [done|lia]|].
  destruct (BAILED (retry w)) eqn:Hb; cbn; [split; [done|lia]|].
  destruct (_ >=? _); cbn; split; (done || lia).
Qed.

Lemma step_retry_le w i w' :
  step w i = Some w' -> retry_le (retry w) (retry w').
Proof.
  destruct i as [t|k r|t|k]; cbn; intros Hstep.
  - destruct (tunnels w !! t) as [tn|]; simplify_eq/=. apply retry_le_refl.
  - destruct (awaiting w !! k) as [[t p]|]; simplify_eq/=.
    destruct (tunnels w !! t) as [tn|]; simplify_eq/=.
    apply (launcher_callback_retry_le t p (options tn) r
             {| retry := retry w; tunnels := tunnels w;
                promises := promises w; awaiting := delete k (awaiting w);
                closing := closing w; trace := trace w |}).
  - destruct (tunnels w !! t) as [tn|]; simplify_eq/=.
    destruct (tunnelInfo tn); simplify_eq/=; apply retry_le_refl.
  - destruct (closing w !! k) as [p|]; simplify_eq/=. apply retry_le_refl.
Qed.

Lemma run_retry_le ins : ∀ w w',
  run w ins = Some w' -> retry_le (retry w) (retry w').
Proof.
  induction ins as [|i rest IH]; cbn; intros w w' Hrun.
  - simplify_eq. apply retry_le_refl.
  - destruct (step w i) as [w1|] eqn:Hstep; simplify_eq/=.
    eapply retry_le_trans; [by eapply step_retry_le | by apply IH].
Qed.

(** A transient failure below the budget: the counter goes up and the
    launcher is started again within the same callback, with no timer in
    between. *)
Lemma transient_failure_retries w k t p tn message :
  awaiting w !! k = Some (t, p) ->
  tunnels w !! t = Some tn ->
  could_not_start message = false ->
  BAILED (retry w) = false ->
  connectFailures (retry w) + 1 < MAX_CONNECT_RETRIES ->
  ∃ w', step w (LauncherDone k (Down message)) = Some w'
        ∧ retry w' = {| connectFailures := connectFailures (retry w) + 1;
                        BAILED := false |}
        ∧ trace w' = trace w ++ [Launch (sauceOptions settings (options tn))]
        ∧ promises w' = promises w ++ [Pending]
        ∧ awaiting w' = delete k (awaiting w) ++ [(t, length (promises w))].
Proof.
  intros Hk Ht Hm Hb Hlt. eexists. split.
  - cbn. rewrite Hk. cbn. rewrite Ht. cbn. reflexivity.
  - unfold Tunnel.launcher_callback. cbn. rewrite Hm, Hb.
    destruct (Z.geb_spec (connectFailures (retry w) + 1) MAX_CONNECT_RETRIES);
      [lia|]. done.
Qed.

(** The failure that brings the counter to the budget sets the latch and
    rejects that attempt's promise. *)
Lemma transient_failure_exhausts w k t p tn message :
  awaiting w !! k = Some (t, p) ->
  tunnels w !! t = Some tn ->
  could_not_start message = false ->
  BAILED (retry w) = false ->
  MAX_CONNECT_RETRIES <= connectFailures (retry w) + 1 ->
  ∃ w', step w (LauncherDone k (Down message)) = Some w'
        ∧ retry w' = {| connectFailures := connectFailures (retry w) + 1;
                        BAILED := true |}
        ∧ trace w' = trace w
        ∧ promises w'
          = <[p := Rejected (Err (exhausted_error
                                    (connectFailures (retry w) + 1)))]>
              (promises w)
        ∧ awaiting w' = delete k (awaiting w).
Proof.
  intros Hk Ht Hm Hb Hge. eexists. split.
  - cbn. rewrite Hk. cbn. rewrite Ht. cbn. reflexivity.
  - unfold Tunnel.launcher_callback. cbn. rewrite Hm, Hb.
    destruct (Z.geb_spec (connectFailures (retry w) + 1) MAX_CONNECT_RETRIES);
      [done|lia].
Qed.

(** A could-not-start failure rejects that attempt's promise with the
    launcher's message and touches nothing else. *)
Lemma fatal_failure_rejects w k t p tn m :
  awaiting w !! k = Some (t, p) ->
  tunnels w !! t = Some tn ->
  could_not_start (Some m) = true ->
  step w (LauncherDone k (Down (Some m)))
  = Some {| retry := retry w; tunnels := tunnels w;
            promises := <[p := Rejected (Message m)]> (promises w);
            awaiting := delete k (awaiting w);
            closing := closing w; trace := trace w |}.
Proof.
  intros Hk Ht Hm. cbn -[could_not_start]. rewrite Hk.
  cbn -[could_not_start]. rewrite Ht. cbn -[could_not_start].
  unfold Tunnel.launcher_callback. by rewrite Hm.
Qed.

(** A promise that nobody holds stays as it is. *)
Lemma connect_unheld p t o w :
  (p < length (promises w))%nat ->
  Forall (fun a => a.2 ≠ p) (awaiting w) ->
  Forall (fun a => a.2 ≠ p) (awaiting (connect settings t o w))
  ∧ promises (connect settings t o w) !! p = promises w !! p
  ∧ (p < length (promises (connect settings t o w)))%nat.
Proof.
  intros Hlt Haw. cbn. repeat split.
  - apply Forall_app. split; [done|]. apply Forall_singleton. cbn. lia.
  - by apply lookup_app_l.
  - rewrite length_app. lia.
Qed.

Lemma launcher_callback_other p t q o r w :
  q ≠ p ->
  (p < length (promises w))%nat ->
  Forall (fun a => a.2 ≠ p) (awaiting w) ->
  let w' := launcher_callback t q o r w in
  (p < length (promises w'))%nat
  ∧ Forall (fun a => a.2 ≠ p) (awaiting w')
  ∧ closing w' = closing w
  ∧ promises w' !! p = promises w !! p.
Proof.
  intros Hne Hlt Haw. unfold Tunnel.launcher_callback.
  assert (Hset : ∀ x (l : list promise), <[q := x]> l !! p = l !! p)
    by (intros; by apply list_lookup_insert_ne).
  destruct r as [process|message]; cbn.
  { rewrite length_insert. by rewrite Hset. }
  destruct (could_not_start message); cbn.
  { rewrite length_insert. by rewrite Hset. }
  destruct (BAILED (retry w)); cbn.
  { rewrite length_insert. by rewrite Hset. }
  destruct (_ >=? _); cbn.
  { rewrite length_insert. by rewrite Hset. }
  rewrite length_app. repeat split.
  - lia.
  - apply Forall_app. split; [done|]. apply Forall_singleton. cbn. lia.
  - by apply lookup_app_l.
Qed.

Lemma step_unheld p w i w' :
  unheld p w -> step w i = Some w' ->
  unheld p w' ∧ promises w' !! p = promises w !! p.
Proof.
  intros (Hlt & Haw & Hcl). unfold unheld.
  destruct i as [t|k r|t|k]; cbn; intros Hstep.
  - destruct (tunnels w !! t) as [tn|]; simplify_eq/=.
    destruct (connect_unheld p t (options tn) (set_tunnelInfo t None w)
                Hlt Haw) as (H1 & H2 & H3).
    done.
  - destruct (awaiting w !! k) as [[t q]|] eqn:Hk; simplify_eq/=.
    destruct (tunnels w !! t) as [tn|]; simplify_eq/=.
    assert (q ≠ p) as Hne.
    { eapply Forall_lookup_1 in Haw; [|exact Hk]. done. }
    pose proof (launcher_callback_other p t q (options tn) r
                  {| retry := retry w; tunnels := tunnels w;
                     promises := promises w;
                     awaiting := delete k (awaiting w);
                     closing := closing w; trace := trace w |}
                  Hne Hlt (Forall_delete _ _ k Haw)) as (H1 & H2 & H3 & H4).
    cbn in *. rewrite H3. done.
  - destruct (tunnels w !! t) as [tn|]; simplify_eq/=.
    assert (Hfresh : Forall (fun q => q ≠ p) [length (promises w)])
      by (apply Forall_singleton; lia).
    destruct (tunnelInfo tn); simplify_eq/=; rewrite length_app;
      (split; [split; [lia|split; [done|]] | by apply lookup_app_l]);
      [|done].
    by apply Forall_app.
  - destruct (closing w !! k) as [q|] eqn:Hk; simplify_eq/=.
    assert (q ≠ p) as Hne.
    { eapply Forall_lookup_1 in Hcl; [|exact Hk]. done. }
    rewrite length_insert.
    split; [split; [done|split; [done|by apply Forall_delete]]|].
    by apply list_lookup_insert_ne.
Qed.

Lemma run_unheld p ins : ∀ w w',
  unheld p w -> run w ins = Some w' ->
  promises w' !! p = promises w !! p.
Proof.
  induction ins as [|i rest IH]; cbn; intros w w' Hun Hrun.
  - by simplify_eq.
  - destruct (step w i) as [w1|] eqn:Hstep; simplify_eq/=.
    destruct (step_unheld p w i w1 Hun Hstep) as [Hun1 Heq].
    rewrite <- Heq. by apply IH.
Qed.

Lemma wf_connect t o w : wf w -> wf (connect settings t o w).
Proof.
  unfold wf. cbn. intros Hwf. rewrite length_app. cbn.
  apply Forall_app. split.
  - eapply Forall_impl; [exact Hwf|]. cbn. intros; lia.
  - apply Forall_singleton. cbn. lia.
Qed.

Lemma step_wf w i w' : wf w -> step w i = Some w' -> wf w'.
Proof.
  intros Hwf. destruct i as [t|k r|t|k]; cbn; intros Hstep.
  - destruct (tunnels w !! t) as [tn|]; simplify_eq/=.
    by apply (wf_connect t (options tn) (set_tunnelInfo t None w)).
  - destruct (awaiting w !! k) as [[t p]|]; simplify_eq/=.
    destruct (tunnels w !! t) as [tn|]; simplify_eq/=.
    assert (Hdel : wf {| retry := retry w; tunnels := tunnels w;
                         promises := promises w;
                         awaiting := delete k (awaiting w);
                         closing := closing w; trace := trace w |})
      by (by apply Forall_delete).
    revert Hdel. generalize {| retry := retry w; tunnels := tunnels w;
                         promises := promises w;
                         awaiting := delete k (awaiting w);
                         closing := closing w; trace := trace w |}.
    intros w0 Hw0. unfold Tunnel.launcher_callback.
    assert (Hset : ∀ x r0,
      wf (settle p x (set_retry r0 w0))).
    { intros x r0. unfold wf. cbn. by rewrite length_insert. }
    destruct r as [process|message].
    { unfold wf. cbn. by rewrite length_insert. }
    destruct (could_not_start message).
    { unfold wf. cbn. by rewrite length_insert. }
    destruct (BAILED (retry w0)); [apply Hset|].
    destruct (_ >=? _); [apply Hset|].
    by apply wf_connect.
  - destruct (tunnels w !! t) as [tn|]; simplify_eq/=.
    destruct (tunnelInfo tn); simplify_eq/=; unfold wf; cbn;
      rewrite length_app; (eapply Forall_impl; [exact Hwf|]); cbn;
      intros; lia.
  - destruct (closing w !! k) as [p|]; simplify_eq/=.
    unfold wf. cbn. by rewrite length_insert.
Qed.

Lemma run_wf ins : ∀ w w', wf w -> run w ins = Some w' -> wf w'.
Proof.
  induction ins as [|i rest IH]; cbn; intros w w' Hwf Hrun.
  - by simplify_eq.
  - destruct (step w i) as [w1|] eqn:Hstep; simplify_eq/=.
    eapply IH; [|exact Hrun]. by eapply step_wf.
Qed.

Lemma start_wf configs : wf (start configs).
Proof. apply Forall_nil_2. Qed.

(** A promise that no launcher call holds is never rejected: it keeps its
    state, or is resolved by a shutdown acknowledgment. *)
Lemma step_not_launched p w i w' :
  not_launched p w -> step w i = Some w' ->
  not_launched p w'
  ∧ (promises w' !! p = promises w !! p
     ∨ is_ack i = true ∧ promises w' !! p = Some Resolved).
Proof.
  intros (Hlt & Haw). unfold not_launched.
  destruct i as [t|k r|t|k]; cbn; intros Hstep.
  - destruct (tunnels w !! t) as [tn|]; simplify_eq/=.
    destruct (connect_unheld p t (options tn) (set_tunnelInfo t None w)
                Hlt Haw) as (H1 & H2 & H3).
    auto.
  - destruct (awaiting w !! k) as [[t q]|] eqn:Hk; simplify_eq/=.
    destruct (tunnels w !! t) as [tn|]; simplify_eq/=.
    assert (q ≠ p) as Hne.
    { eapply Forall_lookup_1 in Haw; [|exact Hk]. done. }
    pose proof (launcher_callback_other p t q (options tn) r
                  {| retry := retry w; tunnels := tunnels w;
                     promises := promises w;
                     awaiting := delete k (awaiting w);
                     closing := closing w; trace := trace w |}
                  Hne Hlt (Forall_delete _ _ k Haw)) as (H1 & H2 & H3 & H4).
    cbn in *. auto.
  - destruct (tunnels w !! t) as [tn|]; simplify_eq/=.
    destruct (tunnelInfo tn); simplify_eq/=; rewrite length_app;
      (split; [split; [lia|done] | left; by apply lookup_app_l]).
  - destruct (closing w !! k) as [q|] eqn:Hk; simplify_eq/=.
    rewrite length_insert. split; [done|].
    destruct (decide (q = p)) as [->|Hne].
    + right. split; [done|]. by apply list_lookup_insert_eq.
    + left. by apply list_lookup_insert_ne.
Qed.

Lemma run_never_rejects p ins : ∀ w w',
  not_launched p w -> run w ins = Some w' ->
  (promises w !! p = Some Pending ∨ promises w !! p = Some Resolved) ->
  promises w' !! p = Some Pending ∨ promises w' !! p = Some Resolved.
Proof.
  induction ins as [|i rest IH]; cbn; intros w w' Hnl Hrun Hp.
  - by simplify_eq.
  - destruct (step w i) as [w1|] eqn:Hstep; simplify_eq/=.
    destruct (step_not_launched p w i w1 Hnl Hstep) as [Hnl1 Hcases].
    eapply IH; [exact Hnl1|exact Hrun|].
    destruct Hcases as [->|[_ ->]]; auto.
Qed.

Lemma run_pending_until_ack p ins : ∀ w w',
  not_launched p w -> run w ins = Some w' ->
  Forall (fun i => is_ack i = false) ins ->
  promises w' !! p = promises w !! p.
Proof.
  induction ins as [|i rest IH]; cbn; intros w w' Hnl Hrun Hins.
  - by simplify_eq.
  - destruct (step w i) as [w1|] eqn:Hstep; simplify_eq/=.
    apply Forall_cons in Hins as [Hi Hrest].
    destruct (step_not_launched p w i w1 Hnl Hstep) as [Hnl1 Hcases].
    rewrite (IH w1 w' Hnl1 Hrun Hrest).
    destruct Hcases as [->|[Hack _]]; [done|congruence].
Qed.

(** C2 (as amended).  Once [BAILED] is true it stays true, and
    [connectFailures] never decreases, whatever happens next in the
    process.  From then on a connection attempt, one in flight or one
    started by a later [open()], whose launcher call fails with anything but
    a could-not-start error is rejected with the bailed error, adds one to
    [connectFailures] and starts no further launcher call.  Every new
    [open()] still starts the launcher once, and an attempt whose launcher
    call succeeds is resolved. *)
Theorem latch_stays_set_and_stops_retries w :
  BAILED (retry w) = true ->
  (∀ ins w', run w ins = Some w' ->
     BAILED (retry w') = true
     ∧ connectFailures (retry w) <= connectFailures (retry w'))
  ∧ (∀ k t p tn message,
       awaiting w !! k = Some (t, p) ->
       tunnels w !! t = Some tn ->
       could_not_start message = false ->
       step w (LauncherDone k (Down message))
       = Some {| retry := {| connectFailures := connectFailures (retry w) + 1;
                             BAILED := true |};
                 tunnels := tunnels w;
                 promises := <[p := Rejected (Err bailed_error)]> (promises w);
                 awaiting := delete k (awaiting w);
                 closing := closing w;
                 trace := trace w |})
  ∧ (∀ t tn,
       tunnels w !! t = Some tn ->
       ∃ w', step w (CallOpen t) = Some w'
             ∧ trace w' = trace w ++ [Launch (sauceOptions settings (options tn))]
             ∧ promises w' = promises w ++ [Pending]
             ∧ awaiting w' = awaiting w ++ [(t, length (promises w))]
             ∧ retry w' = retry w)
  ∧ (∀ k t p tn process,
       awaiting w !! k = Some (t, p) ->
       tunnels w !! t = Some tn ->
       ∃ w', step w (LauncherDone k (Up process)) = Some w'
             ∧ promises w' = <[p := Resolved]> (promises w)
             ∧ trace w' = trace w
             ∧ retry w' = retry w).
Proof.
  intros Hb. split; [|split; [|split]].
  - intros ins w' Hrun. destruct (run_retry_le ins w w' Hrun) as [H1 H2]. auto.
  - intros k t p tn message Hk Ht Hm.
    cbn -[could_not_start]. rewrite Hk. cbn -[could_not_start].
    rewrite Ht. cbn -[could_not_start].
    unfold Tunnel.launcher_callback. cbn -[could_not_start].
    by rewrite Hm, Hb.
  - intros t tn Ht. eexists. split.
    + cbn. rewrite Ht. cbn. reflexivity.
    + done.
  - intros k t p tn process Hk Ht. eexists. split.
    + cbn. rewrite Hk. cbn. rewrite Ht. cbn. reflexivity.
    + done.
Qed.

(** C9.  [close()] on an instance without a subprocess handle returns a
    promise that is already resolved and touches no subprocess.  With a
    handle it calls [process.close] and returns a pending promise, which
    stays pending as long as no shutdown acknowledgment arrives and is
    resolved by its acknowledgment.  In both cases the promise is never
    rejected, whatever happens next in the process. *)
Theorem close_resolves_and_never_rejects w t tn :
  tunnels w !! t = Some tn ->
  wf w ->
  ∃ w', step w (CallClose t) = Some w'
    ∧ (tunnelInfo tn = None ->
         promises w' !! length (promises w) = Some Resolved
         ∧ trace w' = trace w
         ∧ closing w' = closing w)
    ∧ (∀ process, tunnelInfo tn = Some process ->
         promises w' !! length (promises w) = Some Pending
         ∧ trace w' = trace w ++ [ProcessClose process]
         ∧ closing w' = closing w ++ [length (promises w)]
         ∧ (∀ ins w'', Forall (fun i => is_ack i = false) ins ->
              run w' ins = Some w'' ->
              promises w'' !! length (promises w) = Some Pending)
         ∧ (∃ w'', step w' (CloseDone (length (closing w))) = Some w''
                   ∧ promises w'' !! length (promises w) = Some Resolved))
    ∧ (∀ ins w'' why, run w' ins = Some w'' ->
         promises w'' !! length (promises w) ≠ Some (Rejected why)).
Proof.
  intros Ht Hwf.
  assert (Hfresh : Forall (fun a : nat * nat => a.2 ≠ length (promises w))
                     (awaiting w)).
  { eapply Forall_impl; [exact Hwf|]. cbn. intros; lia. }
  destruct (tunnelInfo tn) as [process|] eqn:Hinfo.
  - eexists. split; [cbn; rewrite Ht; cbn; rewrite Hinfo; reflexivity|].
    set (w' := {| retry := retry w; tunnels := tunnels w;
                  promises := promises w ++ [Pending];
                  awaiting := awaiting w;
                  closing := closing w ++ [length (promises w)];
                  trace := trace w ++ [ProcessClose process] |}).
    assert (Hp : promises w' !! length (promises w) = Some Pending).
    { cbn. by rewrite list_lookup_middle. }
    assert (Hnl : not_launched (length (promises w)) w').
    { split; [cbn; rewrite length_app; cbn; lia|done]. }
    split; [done|]. split.
    + intros process' [= <-]. split; [done|]. split; [done|]. split; [done|].
      split.
      * intros ins w'' Hins Hrun.
        by rewrite (run_pending_until_ack _ ins w' w'' Hnl Hrun Hins).
      * eexists. split.
        -- cbn. rewrite list_lookup_middle by done. cbn. reflexivity.
        -- cbn. apply list_lookup_insert_eq. rewrite length_app. cbn. lia.
    + intros ins w'' why Hrun.
      destruct (run_never_rejects _ ins w' w'' Hnl Hrun (or_introl Hp))
        as [-> | ->]; done.
  - eexists. split; [cbn; rewrite Ht; cbn; rewrite Hinfo; reflexivity|].
    set (w' := {| retry := retry w; tunnels := tunnels w;
                  promises := promises w ++ [Resolved];
                  awaiting := awaiting w; closing := closing w;
                  trace := trace w |}).
    assert (Hp : promises w' !! length (promises w) = Some Resolved).
    { cbn. by rewrite list_lookup_middle. }
    assert (Hnl : not_launched (length (promises w)) w').
    { split; [cbn; rewrite length_app; cbn; lia|done]. }
    split; [done|]. split; [done|].
    intros ins w'' why Hrun.
    destruct (run_never_rejects _ ins w' w'' Hnl Hrun (or_intror Hp))
      as [-> | ->]; done.
Qed.

End TunnelSupervisor.

(** ** Concrete runs of the tunnel supervisor *)

Section TunnelRuns.

Import Tunnel.

(** C2 (fails on the code).  After the latch is set, a new [open()] on
    another instance still starts the launcher (the tenth launcher call of
    the process), and when that call succeeds the promise [open()] returned
    is resolved and the instance holds the subprocess. *)
Lemma open_after_latch_starts_launcher :
  ∃ w w1 w2,
    tripped = Some w
    ∧ BAILED (retry w) = true
    ∧ launches w = 9%nat
    ∧ run10 w [CallOpen 1] = Some w1
    ∧ launches w1 = 10%nat
    ∧ awaiting w1 = [(1%nat, 9%nat)]
    ∧ run10 w1 [LauncherDone 0 (Up 7)] = Some w2
    ∧ promises w2 !! 9%nat = Some Resolved
    ∧ tunnelInfo <$> tunnels w2 !! 1%nat = Some (Some 7%nat).
Proof.
  do 3 eexists.
  split; [vm_compute; reflexivity|].
  split; [reflexivity|].
  split; [reflexivity|].
  split; [vm_compute; reflexivity|].
  split; [reflexivity|].
  split; [reflexivity|].
  split; [vm_compute; reflexivity|].
  split; reflexivity.
Qed.

Lemma latch_stays_set_and_stops_retries_witness :
  BAILED (retry latched) = true
  ∧ (∃ w', run10 latched [LauncherDone 0 transient; CallOpen 0] = Some w'
           ∧ BAILED (retry w') = true
           ∧ 10 <= connectFailures (retry w'))
  ∧ run10 latched [LauncherDone 0 transient]
    = Some {| retry := {| connectFailures := 11; BAILED := true |};
              tunnels := tunnels latched;
              promises := [Rejected (Err bailed_error)];
              awaiting := [];
              closing := [];
              trace := trace latched |}
  ∧ (∃ w', run10 latched [CallOpen 0] = Some w'
           ∧ length (trace w') = 2%nat)
  ∧ (∃ w', run10 latched [LauncherDone 0 (Up 7)] = Some w'
           ∧ promises w' = [Resolved]).
Proof.
  pose proof (latch_stays_set_and_stops_retries
                default_MAX_CONNECT_RETRIES sample_settings latched eq_refl)
    as (Hmono & Hfail & Hopen & Hup).
  split; [reflexivity|]. split; [|split; [|split]].
  - destruct (run10 latched [LauncherDone 0 transient; CallOpen 0])
      as [w'|] eqn:Hrun; [|vm_compute in Hrun; discriminate].
    exists w'. split; [reflexivity|]. exact (Hmono _ _ Hrun).
  - exact (Hfail 0%nat 0%nat 0%nat
             {| options := sample_config; tunnelInfo := None |}
             (Some "Sauce Connect tunnel did not come up in time")
             eq_refl eq_refl eq_refl).
  - destruct (Hopen 0%nat {| options := sample_config; tunnelInfo := None |}
                eq_refl) as (w' & Hstep & Htrace & _).
    exists w'. split.
    + unfold run10. cbn [run]. rewrite Hstep. reflexivity.
    + rewrite Htrace. reflexivity.
  - destruct (Hup 0%nat 0%nat 0%nat
                {| options := sample_config; tunnelInfo := None |} 7%nat
                eq_refl eq_refl) as (w' & Hstep & Hprom & _).
    exists w'. split.
    + unfold run10. cbn [run]. rewrite Hstep. reflexivity.
    + rewrite Hprom. reflexivity.
Defined.

(** C3 (fails on the code).  In a fresh process, where [connectFailures]
    starts at 1, it is the ninth transient failure that brings the counter
    to 10, sets the latch and rejects with the error that reports 10
    attempts: one [open()] has then started the launcher nine times and no
    call is left pending, and of ten concurrent [open()] calls the ninth to
    fail trips the latch while the tenth is rejected with the bailed error.
    After a retry the promise [open()] returned is still pending: the
    rejection goes to the promise of the last [connect()] call. *)
Theorem ninth_transient_failure_sets_latch :
  retry <$> one_open_failing 8
  = Some {| connectFailures := 9; BAILED := false |}
  ∧ launches <$> one_open_failing 8 = Some 9%nat
  ∧ retry <$> one_open_failing 9
    = Some {| connectFailures := 10; BAILED := true |}
  ∧ launches <$> one_open_failing 9 = Some 9%nat
  ∧ awaiting <$> one_open_failing 9 = Some []
  ∧ promises <$> one_open_failing 9
    = Some (repeat Pending 8
            ++ [Rejected (Err (Error
                  "Failed to create a secure sauce tunnel after 10 attempts."))])
  ∧ retry <$> ten_opens_failing 9
    = Some {| connectFailures := 10; BAILED := true |}
  ∧ (fun w => promises w !! 8%nat) <$> ten_opens_failing 9
    = Some (Some (Rejected (Err (Error
         "Failed to create a secure sauce tunnel after 10 attempts."))))
  ∧ (fun w => promises w !! 9%nat) <$> ten_opens_failing 10
    = Some (Some (Rejected (Err bailed_error))).
Proof. repeat split; vm_compute; reflexivity. Qed.

(** C5 (fails on the code).  A could-not-start failure of the first attempt
    rejects the promise [open()] returned with the launcher's message,
    starts no second launcher call and leaves the retry state as it was.
    When the same failure comes on a retry, the retry state is untouched as
    well, but the message goes to the promise of the second [connect()]
    call; the promise [open()] returned is still pending and no launcher
    call is left that could settle it. *)
Theorem fatal_failure_on_retry_leaves_open_pending :
  run10 (start [sample_config]) [CallOpen 0; LauncherDone 0 fatal]
  = Some {| retry := initial_retry;
            tunnels := [{| options := sample_config; tunnelInfo := None |}];
            promises := [Rejected (Message fatal_message)];
            awaiting := [];
            closing := [];
            trace := [Launch (sauceOptions sample_settings sample_config)] |}
  ∧ promises <$> retried_then_fatal
    = Some [Pending; Rejected (Message fatal_message)]
  ∧ retry <$> retried_then_fatal
    = Some {| connectFailures := 2; BAILED := false |}
  ∧ awaiting <$> retried_then_fatal = Some []
  ∧ closing <$> retried_then_fatal = Some []
  ∧ launches <$> retried_then_fatal = Some 2%nat.
Proof. repeat split; vm_compute; reflexivity. Qed.

(** Nothing that happens later settles the promise that [open()] returned
    in that run. *)
Lemma orphaned_open_never_settles w ins w' :
  retried_then_fatal = Some w ->
  run10 w ins = Some w' ->
  promises w' !! 0%nat = Some Pending.
Proof.
  intros Hw Hrun. vm_compute in Hw. injection Hw as Hw.
  assert (Hun : unheld 0%nat w).
  { subst w. split; [cbn; lia|]. split; constructor. }
  rewrite (run_unheld _ _ 0%nat ins w w' Hun Hrun). by subst w.
Qed.

(** C7 (fails on the code).  With [fastFailRegexps] configured, the options
    the launcher is started with carry the other properties, but their
    [fastFailRegexps] property is [undefined]: it is read from
    [fastFailRegexpss], a name the options object does not have. *)
Theorem launcher_options_lose_fastFailRegexps :
  fastFailRegexps sample_config = VStr "Could not connect"
  ∧ trace <$> run10 (start [sample_config]) [CallOpen 0]
    = Some [Launch [("username", VStr "alice");
                    ("accessKey", VStr "s3cret");
                    ("tunnelIdentifier", VStr "tunnel-1");
                    ("readyFileId", VStr "tunnel-1");
                    ("verbose", VBool false);
                    ("verboseDebugging", VBool false);
                    ("logfile",
                     VStr "/tmp/magellan/build-42_sauceconnect_tunnel-1.log");
                    ("port", VNum 56000);
                    ("fastFailRegexps", VUndefined)]]
  ∧ assoc "fastFailRegexps" (sauceOptions sample_settings sample_config)
    = VUndefined.
Proof. repeat split; vm_compute; reflexivity. Qed.

(** For every configuration that sets it, the property is lost. *)
Lemma sauceOptions_fastFailRegexps st o :
  truthy (fastFailRegexps o) = true ->
  assoc "fastFailRegexps" (sauceOptions st o) = VUndefined.
Proof. unfold sauceOptions. by intros ->. Qed.

Lemma close_resolves_and_never_rejects_witness :
  (∃ w', run10 (start [sample_config]) [CallClose 0] = Some w'
         ∧ promises w' = [Resolved] ∧ trace w' = [])
  ∧ (∃ w' w'', run10 opened [CallClose 0] = Some w'
               ∧ promises w' !! 1%nat = Some Pending
               ∧ trace w' = trace opened ++ [ProcessClose 7]
               ∧ run10 w' [CloseDone 0] = Some w''
               ∧ promises w'' !! 1%nat = Some Resolved).
Proof.
  split.
  - destruct (close_resolves_and_never_rejects
                default_MAX_CONNECT_RETRIES sample_settings
                (start [sample_config]) 0%nat
                {| options := sample_config; tunnelInfo := None |}
                eq_refl (start_wf _))
      as (w' & Hstep & Hnone & _ & _).
    exists w'. split; [unfold run10; cbn [run]; by rewrite Hstep|].
    vm_compute in Hstep. by injection Hstep as <-.
  - destruct (close_resolves_and_never_rejects
                default_MAX_CONNECT_RETRIES sample_settings
                opened 0%nat
                {| options := sample_config; tunnelInfo := Some 7%nat |}
                eq_refl (Forall_nil_2 _))
      as (w' & Hstep & _ & Hsome & _).
    destruct (Hsome 7%nat eq_refl) as (Hp & Htr & _ & _ & w'' & Hack & Hres).
    exists w', w''. split; [unfold run10; cbn [run]; by rewrite Hstep|].
    split; [exact Hp|]. split; [exact Htr|].
    change (length (closing opened)) with 0%nat in Hack.
    split; [unfold run10; cbn [run]; by rewrite Hack|exact Hres].
Defined.

End TunnelRuns.

(** ** Configuration check *)

Section ConfigCheck.

Import Facade.

(** C10.  Without [sauce_browsers] and [sauce_browser], [validateConfig]
    makes its assignments and returns the config, whatever the credentials
    and tunnel flags are, and the tunnel id is the one given (none is
    generated).  With one of them: missing [username] or [accessKey] throws;
    with both present, [--sauce_create_tunnels] together with
    [--sauce_tunnel_id] throws, together with
    [--shared_sauce_parent_account] throws, and on its own makes the tunnel
    id the generated one ([sauceTunnelId] is the result of [guid()]);
    without [--sauce_create_tunnels] the tunnel id stays the one given. *)
Theorem validateConfig_checks_only_sauce_runs
    (argv : Argv) (process_env : Env) (cfg : config) (opts : Opts)
    (guid : string) :
  let a := default argv (opts_argv opts) in
  let e := default process_env (opts_env opts) in
  let c := assigned cfg a e in
  let result := validateConfig argv process_env cfg opts guid in
  (sauce_requested a = false ->
     result = (c, Returns) ∧ sauceTunnelId result.1 = sauce_tunnel_id a)
  ∧ (sauce_requested a = true ->
       (truthy (SAUCE_USERNAME e) && truthy (SAUCE_ACCESS_KEY e) = false ->
          result
          = (c, Throws (Error "Missing configuration for Saucelabs connection.")))
       ∧ (truthy (SAUCE_USERNAME e) && truthy (SAUCE_ACCESS_KEY e) = true ->
            (truthy (sauce_create_tunnels a) = true ->
             truthy (sauce_tunnel_id a) = true ->
               ∃ msg, result = (c, Throws (Error msg))
                      ∧ includes "Only one Saucelabs tunnel arg is allowed" msg
                        = true)
            ∧ (truthy (sauce_create_tunnels a) = true ->
               truthy (sauce_tunnel_id a) = false ->
               truthy (shared_sauce_parent_account a) = true ->
                 result
                 = (c, Throws (Error
                      "--shared_sauce_parent_account only works with --sauce_tunnel_id.")))
            ∧ (truthy (sauce_create_tunnels a) = true ->
               truthy (sauce_tunnel_id a) = false ->
               truthy (shared_sauce_parent_account a) = false ->
                 result = (with_tunnel_id c (VStr guid), Returns)
                 ∧ sauceTunnelId result.1 = VStr guid)
            ∧ (truthy (sauce_create_tunnels a) = false ->
                 result = (c, Returns)
                 ∧ sauceTunnelId result.1 = sauce_tunnel_id a))).
Proof.
  intros a e c result. subst result. unfold validateConfig, sauce_requested.
  fold a e c. change (prop c "username") with (SAUCE_USERNAME e).
  change (prop c "accessKey") with (SAUCE_ACCESS_KEY e).
  change (sauceTunnelId c) with (sauce_tunnel_id a).
  change (useTunnels c) with (VBool (truthy (sauce_create_tunnels a))).
  split.
  - intros ->. done.
  - intros ->. split.
    + intros ->. done.
    + intros ->. cbn [negb]. split; [|split; [|split]].
      * intros -> ->. eexists. split; [reflexivity|]. vm_compute. reflexivity.
      * intros -> -> ->. done.
      * intros -> -> ->. done.
      * intros ->. cbn. by rewrite andb_false_r.
Qed.

Lemma validateConfig_checks_only_sauce_runs_witness :
  validateConfig no_sauce_argv empty_env initial_config no_opts "guid-1"
  = (assigned initial_config no_sauce_argv empty_env, Returns)
  ∧ sauceTunnelId
      (validateConfig no_sauce_argv empty_env initial_config no_opts "guid-1").1
    = VStr "shared-tunnel"
  ∧ validateConfig sauce_argv empty_env initial_config no_opts "guid-1"
    = (assigned initial_config sauce_argv empty_env,
       Throws (Error "Missing configuration for Saucelabs connection."))
  ∧ validateConfig sauce_argv sauce_env initial_config no_opts "guid-1"
    = (with_tunnel_id (assigned initial_config sauce_argv sauce_env)
         (VStr "guid-1"), Returns)
  ∧ sauceTunnelId
      (validateConfig sauce_argv sauce_env initial_config no_opts "guid-1").1
    = VStr "guid-1".
Proof.
  pose proof (validateConfig_checks_only_sauce_runs
                no_sauce_argv empty_env initial_config no_opts "guid-1")
    as [Hoff _].
  pose proof (validateConfig_checks_only_sauce_runs
                sauce_argv empty_env initial_config no_opts "guid-1")
    as [_ Hon1].
  pose proof (validateConfig_checks_only_sauce_runs
                sauce_argv sauce_env initial_config no_opts "guid-1")
    as [_ Hon2].
  destruct (Hoff eq_refl) as [H1 H2].
  destruct (Hon1 eq_refl) as [H3 _].
  destruct (Hon2 eq_refl) as [_ H4].
  destruct (H4 eq_refl) as (_ & _ & H5 & _).
  split; [exact H1|]. split; [exact H2|]. split; [exact (H3 eq_refl)|].
  destruct (H5 eq_refl eq_refl eq_refl) as [H6 H7].
  split; [exact H6|exact H7].
Defined.

Example validateConfig_strips_slash :
  locksServerLocation
    (validateConfig no_sauce_argv empty_env initial_config no_opts "guid-1").1
  = VStr "http://locks:3000".
Proof. reflexivity. Qed.

End ConfigCheck.

(** ** More on the lock client *)

Section LockClientPolling.

Import Locks.

Implicit Types (o : config) (r : reply) (script : list (reply * Z)).

Lemma count_cons p (e : event) evs :
  count p (e :: evs) = ((if p e then 1 else 0) + count p evs)%nat.
Proof.
  unfold count. rewrite filter_cons.
  destruct (p e); case_decide; (done || congruence).
Qed.

Lemma count_app p (evs1 evs2 : list event) :
  count p (evs1 ++ evs2) = (count p evs1 + count p evs2)%nat.
Proof. unfold count. by rewrite filter_app, length_app. Qed.

Lemma timers_cons (e : event) evs :
  timers (e :: evs)
  = ((match e with SetTimeout _ => 1 | _ => 0 end) + timers evs)%nat.
Proof.
  unfold timers. rewrite filter_cons.
  destruct e; case_decide; (done || congruence).
Qed.

Lemma count_nil p : count p [] = 0%nat.
Proof. reflexivity. Qed.

Lemma timers_nil : timers [] = 0%nat.
Proof. reflexivity. Qed.

Ltac count_events :=
  rewrite ?count_cons, ?count_nil, ?timers_cons, ?timers_nil;
  cbn -[count timers].

(** The [try] block either calls back once and raises nothing, or raises
    without having done anything. *)
Lemma claim_try_cases r :
  (∃ err result, claim_try r = ([Callback err result], None))
  ∨ (∃ e, claim_try r = ([], Some e)).
Proof.
  unfold claim_try. destruct r as [[e|] b]; cbn -[count timers]; [eauto|].
  destruct b as [why|result]; cbn -[count timers]; [eauto|].
  destruct (truthy result); [destruct (truthy (get result "accepted"))|];
    eauto.
Qed.

(** [poll] makes at most one request per reply it reads, and one more. *)
Lemma poll_requests_le o t0 script :
  (count is_network (poll o t0 script).1 <= S (length script))%nat.
Proof.
  induction script as [|[r now] rest IH]; cbn -[count timers];
    [by count_events|].
  destruct (claim_try_cases r) as [(err & result & ->)|(e & ->)];
    cbn -[count timers].
  - count_events. lia.
  - destruct (_ >? _); cbn -[count timers].
    + count_events. lia.
    + destruct (poll o t0 rest) as [later st]. cbn -[count timers] in *.
      count_events. lia.
Qed.

Lemma poll_past_window o t0 script : ∀ j r now,
  script !! j = Some (r, now) ->
  now - t0 > locksOutageTimeout o ->
  (poll o t0 script).2 = Finished
  ∧ (count is_network (poll o t0 script).1 <= S j)%nat.
Proof.
  induction script as [|[r0 now0] rest IH]; intros j r now Hj Hlate;
    [done|]. cbn -[count timers].
  destruct (claim_try_cases r0) as [(err & result & ->)|(e & ->)]; cbn -[count timers].
  - count_events. split; [done|lia].
  - destruct (Z.gtb_spec (now0 - t0) (locksOutageTimeout o)) as [Hgt|Hle]; cbn -[count timers].
    + count_events. split; [done|lia].
    + destruct j as [|j]; cbn in Hj; [simplify_eq; lia|].
      destruct (IH j r now Hj Hlate) as [Hfin Hcount].
      destruct (poll o t0 rest) as [later st]. cbn -[count timers] in *.
      count_events. split; [done|lia].
Qed.

(** X5.  No reply is consumed after the outage window has passed: if the
    reply to the request number [j] comes later than [locksOutageTimeout]
    after the start, [acquire] has finished by then with at most [j + 1]
    requests, whatever the replies are. *)
Theorem acquire_finishes_past_window o now0 script j r now :
  truthy (locksServerLocation o) = true ->
  script !! j = Some (r, now) ->
  now - now0 > locksOutageTimeout o ->
  (acquire o now0 script).2 = Finished
  ∧ (count is_network (acquire o now0 script).1 <= S j)%nat.
Proof.
  intros Hs Hj Hlate. rewrite acquire_with_server by done.
  by eapply poll_past_window.
Qed.

Lemma acquire_finishes_past_window_witness :
  (acquire sample_config 0
     [(not_json, 100); (not_json, 300001); (not_json, 302600)]).2 = Finished
  ∧ Nat.le
      (count is_network
         (acquire sample_config 0
            [(not_json, 100); (not_json, 300001); (not_json, 302600)]).1)
      2%nat.
Proof.
  apply (acquire_finishes_past_window sample_config 0
           [(not_json, 100); (not_json, 300001); (not_json, 302600)]
           1%nat not_json 300001 eq_refl eq_refl).
  cbn. lia.
Defined.

(** X6.  If the clock behaves (the reply to request number [j] comes no
    earlier than [j] polling intervals after the start), [acquire] makes at
    most [locksOutageTimeout / locksPollingInterval + 2] requests however
    long the server keeps failing, and it has finished once that many
    replies are in. *)
Theorem acquire_requests_bounded o now0 script :
  truthy (locksServerLocation o) = true ->
  0 < locksPollingInterval o ->
  0 <= locksOutageTimeout o ->
  (∀ (j : nat) r now,
     script !! j = Some (r, now) ->
     now0 + Z.of_nat j * locksPollingInterval o <= now) ->
  Z.of_nat (count is_network (acquire o now0 script).1)
  <= locksOutageTimeout o / locksPollingInterval o + 2
  ∧ (locksOutageTimeout o / locksPollingInterval o + 2
     <= Z.of_nat (length script) ->
     (acquire o now0 script).2 = Finished).
Proof.
  intros Hs Hint Hout Hclock.
  set (q := locksOutageTimeout o / locksPollingInterval o).
  assert (Hq : 0 <= q) by (apply Z.div_pos; lia).
  assert (Hgt : locksOutageTimeout o < locksPollingInterval o * (q + 1)).
  { pose proof (Z.mul_succ_div_gt (locksOutageTimeout o)
                  (locksPollingInterval o) Hint). fold q in H. lia. }
  set (J := Z.to_nat (q + 1)).
  destruct (script !! J) as [[r now]|] eqn:HJ.
  - pose proof (Hclock J r now HJ) as Hnow.
    assert (now - now0 > locksOutageTimeout o) as Hlate.
    { unfold J in Hnow. rewrite Z2Nat.id in Hnow by lia. nia. }
    destruct (poll_past_window o now0 script J r now HJ Hlate)
      as [Hfin Hcount].
    rewrite <- (acquire_with_server o now0 script Hs) in Hfin, Hcount.
    split; [unfold J in Hcount; lia|done].
  - apply lookup_ge_None in HJ.
    pose proof (poll_requests_le o now0 script) as Hle.
    rewrite <- (acquire_with_server o now0 script Hs) in Hle.
    split; [unfold J in HJ; lia|]. unfold J in HJ. lia.
Qed.

Lemma acquire_requests_bounded_witness :
  Z.of_nat (count is_network
    (acquire sample_config 0
       [(not_json, 100); (not_json, 2700); (not_json, 5300)]).1) <= 122.
Proof.
  apply (acquire_requests_bounded sample_config 0
           [(not_json, 100); (not_json, 2700); (not_json, 5300)] eq_refl).
  - cbn. lia.
  - cbn. lia.
  - intros [|[|[|j]]] r now Hj; cbn in Hj; simplify_eq; cbn; lia.
Defined.

End LockClientPolling.

(** ** The lock client step by step: callbacks that throw, timers that fire *)

Section LockClientMachine.

Import Locks Polling.

Variable o : config.
Variable pollingStartTime : Z.
Variable callback : behaviour.

#[local] Abbreviation step := (Polling.step o pollingStartTime callback).
#[local] Abbreviation run := (Polling.run o pollingStartTime callback).
#[local] Abbreviation begin := (Polling.begin o callback).
#[local] Abbreviation on_reply :=
  (Polling.on_reply o pollingStartTime callback).

Implicit Types (s : state) (i : input) (ins : list input).

Lemma count_snoc p (evs : list event) e :
  count p (evs ++ [e]) = (count p evs + if p e then 1 else 0)%nat.
Proof. rewrite count_app, count_cons, count_nil. lia. Qed.

Lemma timers_snoc (evs : list event) e :
  timers (evs ++ [e])
  = (timers evs + match e with SetTimeout _ => 1 | _ => 0 end)%nat.
Proof.
  unfold timers. rewrite filter_app, length_app, filter_cons.
  destruct e; case_decide; cbn; (lia || congruence).
Qed.

Lemma replies_cons i ins :
  replies (i :: ins) = ((if is_reply i then 1 else 0) + replies ins)%nat.
Proof.
  unfold replies. rewrite filter_cons.
  destruct (is_reply i); case_decide; (done || congruence).
Qed.

Lemma firings_cons i ins :
  firings (i :: ins) = ((if is_reply i then 0 else 1) + firings ins)%nat.
Proof.
  unfold firings. rewrite filter_cons.
  destruct (is_reply i); case_decide; (done || congruence).
Qed.

Ltac tally :=
  cbn [phase_of calls emitted set_phase emit invoke fst snd];
  rewrite ?count_snoc, ?timers_snoc;
  cbn [is_network is_callback].

(** The handler makes no request; it leaves a timer pending or ends
    [acquire]. *)
Lemma on_reply_requests r now s :
  count is_network (emitted (on_reply r now s))
  = count is_network (emitted s)
  ∧ awaits_reply (on_reply r now s) = 0%nat
  ∧ timers (emitted (on_reply r now s))
    = (timers (emitted s) + awaits_timer (on_reply r now s))%nat.
Proof.
  unfold Polling.on_reply, on_catch, awaits_reply, awaits_timer.
  destruct (claim_outcome r) as [e|[err result]]; tally.
  - destruct (_ >? _); tally; [destruct (callback (calls s))|]; tally;
      repeat split; lia.
  - destruct (callback (calls s)); tally; [|repeat split; lia].
    destruct (_ >? _); tally; [destruct (callback (S (calls s)))|]; tally;
      repeat split; lia.
Qed.

(** The handler calls back at most twice; [acquire] is done exactly if one
    of the calls returned normally, and an exception escapes only if the
    callback threw it. *)
Lemma on_reply_calls r now s :
  count is_callback (emitted s) = calls s ->
  normal_returns callback (calls s) = 0%nat ->
  count is_callback (emitted (on_reply r now s)) = calls (on_reply r now s)
  ∧ normal_returns callback (calls (on_reply r now s))
    = is_done (on_reply r now s)
  ∧ (∀ e, phase_of (on_reply r now s) = Escaped e ->
       ∃ n, callback n = Some e).
Proof.
  intros Hc Hn. unfold Polling.on_reply, on_catch, is_done.
  destruct (claim_outcome r) as [e|[err result]]; tally.
  - destruct (_ >? _); tally.
    + destruct (callback (calls s)) as [e'|] eqn:Hcb; tally;
        cbn [normal_returns]; rewrite Hcb, Hn, Hc;
        (split; [lia|]); (split; [done|]); intros e0 He0; simplify_eq.
      by exists (calls s).
    + rewrite Hc, Hn. done.
  - destruct (callback (calls s)) as [e|] eqn:Hcb; tally.
    + destruct (_ >? _); tally.
      * destruct (callback (S (calls s))) as [e'|] eqn:Hcb'; tally;
          cbn [normal_returns]; rewrite Hcb, Hcb', Hn, Hc;
          (split; [lia|]); (split; [done|]); intros e0 He0; simplify_eq.
        by exists (S (calls s)).
      * cbn [normal_returns]. rewrite Hcb, Hn, Hc.
        split; [lia|]. split; [done|]. done.
    + cbn [normal_returns]. rewrite Hcb, Hn, Hc.
      split; [lia|]. split; [done|]. done.
Qed.

Lemma run_tally ins : ∀ s s' (R F : nat),
  run s ins = Some s' ->
  count is_network (emitted s) = S F ->
  count is_network (emitted s) = (R + awaits_reply s)%nat ->
  timers (emitted s) = (F + awaits_timer s)%nat ->
  count is_network (emitted s') = S (F + firings ins)
  ∧ count is_network (emitted s') = (R + replies ins + awaits_reply s')%nat
  ∧ timers (emitted s') = (F + firings ins + awaits_timer s')%nat.
Proof.
  induction ins as [|i rest IH]; cbn [Polling.run]; intros s s' R F Hrun H1 H2 H3.
  - simplify_eq. unfold replies, firings. cbn. repeat split; lia.
  - destruct (step s i) as [s1|] eqn:Hstep; simplify_eq/=.
    rewrite replies_cons, firings_cons.
    unfold Polling.step in Hstep.
    destruct (phase_of s) eqn:Hph, i as [r now|]; simplify_eq.
    + destruct (on_reply_requests r now s) as (Hp & Hr & Ht).
      unfold awaits_reply, awaits_timer in H2, H3. rewrite Hph in H2, H3.
      destruct (IH _ s' (S R) F Hrun) as (G1 & G2 & G3); [lia|lia|lia|].
      cbn [is_reply]. repeat split; lia.
    + unfold awaits_reply, awaits_timer in H2, H3. rewrite Hph in H2, H3.
      destruct (IH (post o s) s' R (S F) Hrun) as (G1 & G2 & G3).
      * unfold post. tally. lia.
      * unfold post, awaits_reply. tally. lia.
      * unfold post, awaits_timer. tally. lia.
      * cbn [is_reply]. repeat split; lia.
Qed.

Lemma run_calls ins : ∀ s s',
  run s ins = Some s' ->
  count is_callback (emitted s) = calls s ->
  normal_returns callback (calls s) = is_done s ->
  (∀ e, phase_of s = Escaped e -> ∃ n, callback n = Some e) ->
  count is_callback (emitted s') = calls s'
  ∧ normal_returns callback (calls s') = is_done s'
  ∧ (∀ e, phase_of s' = Escaped e -> ∃ n, callback n = Some e).
Proof.
  induction ins as [|i rest IH]; cbn [Polling.run]; intros s s' Hrun H1 H2 H3.
  - by simplify_eq.
  - destruct (step s i) as [s1|] eqn:Hstep; simplify_eq/=.
    unfold Polling.step in Hstep.
    destruct (phase_of s) eqn:Hph, i as [r now|]; simplify_eq.
    + unfold is_done in H2. rewrite Hph in H2.
      destruct (on_reply_calls r now s H1 H2) as (G1 & G2 & G3).
      by apply (IH _ s' Hrun).
    + unfold is_done in H2. rewrite Hph in H2.
      apply (IH _ s' Hrun); unfold post, is_done; tally; (done || lia).
Qed.

Lemma begin_calls :
  count is_callback (emitted begin) = calls begin
  ∧ normal_returns callback (calls begin) = is_done begin
  ∧ (∀ e, phase_of begin = Escaped e -> ∃ n, callback n = Some e).
Proof.
  unfold Polling.begin, post, is_done.
  destruct (truthy (locksServerLocation o)); tally; [done|].
  destruct (callback 0%nat) as [e|] eqn:Hcb; tally; cbn [normal_returns];
    rewrite Hcb; (split; [done|]); (split; [done|]);
    intros e0 He0; simplify_eq.
  by exists 0%nat.
Qed.

Lemma normal_returns_all n :
  (∀ k, callback k = None) -> normal_returns callback n = n.
Proof.
  intros Hall. induction n as [|n IH]; cbn; [done|].
  rewrite Hall, IH. lia.
Qed.

(** X1.  If the caller's callback returns normally whenever it is called,
    [acquire] calls it exactly once by the time it is done and not at all
    before, whatever replies arrive and whenever the timers fire, and no
    exception escapes. *)
Theorem callback_called_once_if_it_returns ins s :
  (∀ n, callback n = None) ->
  run begin ins = Some s ->
  count is_callback (emitted s) = is_done s
  ∧ (∀ e, phase_of s ≠ Escaped e).
Proof.
  intros Hall Hrun.
  destruct begin_calls as (B1 & B2 & B3).
  destruct (run_calls ins begin s Hrun B1 B2 B3) as (H1 & H2 & H3).
  rewrite normal_returns_all in H2 by done. split; [congruence|].
  intros e He. destruct (H3 e He) as [n Hn]. by rewrite Hall in Hn.
Qed.

(** X2.  With a lock server, polling is strictly sequential.  At every
    moment the requests made are one more than the timers that have fired,
    at most one request is unanswered (none while a timer is pending or
    after the end), and a timer is pending exactly between the reply that
    is tolerated and the next request. *)
Theorem requests_replies_and_timers ins s :
  truthy (locksServerLocation o) = true ->
  run begin ins = Some s ->
  count is_network (emitted s) = S (firings ins)
  ∧ count is_network (emitted s) = (replies ins + awaits_reply s)%nat
  ∧ timers (emitted s) = (firings ins + awaits_timer s)%nat.
Proof.
  intros Hs Hrun.
  apply (run_tally ins begin s 0 0 Hrun);
    unfold Polling.begin, post, awaits_reply, awaits_timer;
    rewrite Hs; tally; done.
Qed.

Lemma step_reply s r now :
  phase_of s = AwaitReply -> step s (Reply r now) = Some (on_reply r now s).
Proof. unfold Polling.step. by intros ->. Qed.

Lemma step_timer s :
  phase_of s = AwaitTimer -> step s TimerFires = Some (post o s).
Proof. unfold Polling.step. by intros ->. Qed.

Lemma malformed_rounds (bad : list (string * Z)) : ∀ s tail,
  phase_of s = AwaitReply ->
  Forall (fun b => b.2 - pollingStartTime <= locksOutageTimeout o) bad ->
  run s
    (concat (map (fun b =>
       [Reply {| error := None; reply_body := Malformed b.1 |} b.2;
        TimerFires]) bad) ++ tail)
  = run {| phase_of := AwaitReply; calls := calls s;
           emitted := emitted s
             ++ concat (map (fun _ =>
                  [SetTimeout (locksPollingInterval o); claim_post o]) bad) |}
        tail.
Proof.
  induction bad as [|[why t] bad IH]; intros s tail Hph Hbad.
  - cbn. rewrite app_nil_r. by destruct s; cbn in *; subst.
  - apply Forall_cons in Hbad as [Ht Hbad]. cbn in Ht.
    cbn [map concat app Polling.run fst snd]. rewrite step_reply by done.
    cbn [mbind option_bind].
    assert (Hround : on_reply {| error := None; reply_body := Malformed why |}
                       t s
                     = set_phase AwaitTimer
                         (emit (SetTimeout (locksPollingInterval o)) s)).
    { unfold Polling.on_reply, on_catch. cbn.
      by destruct (Z.gtb_spec (t - pollingStartTime) (locksOutageTimeout o));
        [lia|]. }
    rewrite Hround, step_timer by done. cbn [mbind option_bind].
    rewrite IH by done. cbn. by rewrite <- !app_assoc.
Qed.

(** X3.  With a lock server, replies that do not parse, each inside the
    outage window and each followed by its timer, and then a reply that
    accepts the claim: [acquire] makes one request per reply with one timer
    between them and hands [{ token: result.token }] to the callback; if
    that call returns normally [acquire] is done, with no request
    unanswered and no timer pending, so that nothing further can happen. *)
Theorem success_after_malformed_replies
    (bad : list (string * Z)) (result : value) (now : Z) :
  truthy (locksServerLocation o) = true ->
  Forall (fun b => b.2 - pollingStartTime <= locksOutageTimeout o) bad ->
  truthy (get result "accepted") = true ->
  callback 0%nat = None ->
  let final :=
    {| phase_of := Done; calls := 1;
       emitted :=
         claim_post o
         :: concat (map (fun _ =>
              [SetTimeout (locksPollingInterval o); claim_post o]) bad)
         ++ [Callback None (VObj [("token", get result "token")])] |} in
  run begin
    (concat (map (fun b =>
       [Reply {| error := None; reply_body := Malformed b.1 |} b.2;
        TimerFires]) bad)
     ++ [Reply {| error := None; reply_body := WellFormed result |} now])
  = Some final
  ∧ (∀ i, step final i = None).
Proof.
  intros Hs Hbad Hacc Hcb final. split; [|done].
  assert (Hres : truthy result = true)
    by (destruct result; cbn in *; done).
  rewrite malformed_rounds; [|by unfold Polling.begin; rewrite Hs|done].
  unfold Polling.begin. rewrite Hs.
  cbn [Polling.run post set_phase emit phase_of calls emitted].
  rewrite step_reply by done. cbn [mbind option_bind].
  unfold Polling.on_reply.
  cbn [claim_outcome error reply_body JSON_parse]. rewrite Hres, Hacc.
  cbn [invoke calls emitted phase_of]. rewrite Hcb.
  cbn. unfold final. reflexivity.
Qed.


End LockClientMachine.

(** [Locks.poll] is this machine run on the schedule in which the callback
    returns normally and every timer fires before the next reply. *)

Section LockClientAgreement.

Import Locks Polling.

Lemma claim_try_outcome r :
  claim_try r
  = match claim_outcome r with
    | inl e => ([], Some e)
    | inr (err, result) => ([Callback err result], None)
    end.
Proof.
  unfold claim_try, claim_outcome. destruct (error r); [done|].
  destruct (JSON_parse (reply_body r)) as [e|result]; [done|].
  destruct (truthy result); [destruct (truthy (get result "accepted"))|];
    done.
Qed.

Lemma poll_is_machine_run o t0 script : ∀ s pre,
  phase_of s = AwaitReply ->
  emitted s = pre ++ [claim_post o] ->
  ∃ s', Polling.run o t0 returns s (schedule o t0 script) = Some s'
        ∧ emitted s' = pre ++ (poll o t0 script).1
        ∧ phase_of s' = match (poll o t0 script).2 with
                        | Finished => Done
                        | Waiting => AwaitReply
                        end.
Proof.
  induction script as [|[r now] rest IH]; intros s pre Hph Hem.
  - exists s. done.
  - cbn [schedule poll]. rewrite claim_try_outcome.
    cbn [Polling.run]. unfold Polling.step at 1. rewrite Hph.
    cbn [mbind option_bind]. unfold Polling.on_reply, on_catch.
    destruct (claim_outcome r) as [e|[err result]].
    + destruct (now - t0 >? locksOutageTimeout o) eqn:Hlate.
      * eexists. split; [reflexivity|]. cbn. rewrite Hem.
        by rewrite <- app_assoc.
      * destruct (IH (post o (set_phase AwaitTimer
                       (emit (SetTimeout (locksPollingInterval o)) s)))
                    (pre ++ [claim_post o;
                             SetTimeout (locksPollingInterval o)]))
          as (s' & Hrun & Hemit & Hphase).
        { done. }
        { cbn. rewrite Hem. by rewrite <- !app_assoc. }
        exists s'. split.
        { cbn [Polling.run]. unfold Polling.step at 1.
          cbn [phase_of set_phase mbind option_bind]. exact Hrun. }
        destruct (poll o t0 rest) as [later st]. cbn in *.
        rewrite Hemit. by rewrite <- app_assoc.
    + eexists. split; [reflexivity|]. cbn. rewrite Hem.
      by rewrite <- app_assoc.
Qed.

(** With a lock server, the events and the status that [acquire] gives for
    a script are those of the machine on that schedule. *)
Lemma acquire_is_machine_run o now0 script :
  truthy (locksServerLocation o) = true ->
  ∃ s', Polling.run o now0 returns (Polling.begin o returns)
          (schedule o now0 script) = Some s'
        ∧ emitted s' = (acquire o now0 script).1
        ∧ phase_of s' = match (acquire o now0 script).2 with
                        | Finished => Done
                        | Waiting => AwaitReply
                        end.
Proof.
  intros Hs. rewrite acquire_with_server by done.
  apply (poll_is_machine_run o now0 script _ []);
    unfold Polling.begin; by rewrite Hs.
Qed.

End LockClientAgreement.

(** ** More on the tunnel supervisor: the shared retry budget *)

Section TunnelBudget.

Import Tunnel.

Variable MAX_CONNECT_RETRIES : Z.
Variable settings : Settings.

#[local] Abbreviation step := (step MAX_CONNECT_RETRIES settings).
#[local] Abbreviation run := (run MAX_CONNECT_RETRIES settings).

Implicit Types (w : world) (i : input) (ins : list input).

Lemma occurrences_cons p i ins :
  occurrences p (i :: ins) = (if p i then 1 else 0) + occurrences p ins.
Proof.
  unfold occurrences. rewrite filter_cons.
  destruct (p i); case_decide; try congruence; cbn [length]; lia.
Qed.

Lemma launches_app w (evs : list event) :
  length (filter (fun e => is_launch e = true) (trace w ++ evs))
  = (launches w + length (filter (fun e => is_launch e = true) evs))%nat.
Proof. unfold launches. by rewrite filter_app, length_app. Qed.

Lemma launches_connect t o w :
  launches (connect settings t o w) = S (launches w).
Proof.
  unfold launches at 1. cbn [trace connect]. rewrite launches_app.
  rewrite filter_cons. case_decide; [cbn; lia|done].
Qed.

(** What one step does to the counter, the latch and the number of
    launcher calls. *)
Lemma step_accounting w i w' :
  step w i = Some w' ->
  (retry w' = retry w
   ∧ Z.of_nat (launches w')
     = Z.of_nat (launches w) + (if is_open i then 1 else 0)
   ∧ is_transient_failure i = false)
  ∨ (is_transient_failure i = true
     ∧ is_open i = false
     ∧ connectFailures (retry w') = connectFailures (retry w) + 1
     ∧ ((BAILED (retry w) = true ∧ BAILED (retry w') = true
         ∧ launches w' = launches w)
        ∨ (BAILED (retry w) = false
           ∧ MAX_CONNECT_RETRIES <= connectFailures (retry w) + 1
           ∧ BAILED (retry w') = true ∧ launches w' = launches w)
        ∨ (BAILED (retry w) = false
           ∧ connectFailures (retry w) + 1 < MAX_CONNECT_RETRIES
           ∧ BAILED (retry w') = false ∧ launches w' = S (launches w)))).
Proof.
  destruct i as [t|k r|t|k]; cbn -[could_not_start]; intros Hstep.
  - destruct (tunnels w !! t) as [tn|]; simplify_eq/=. left.
    rewrite (launches_connect t (options tn) (set_tunnelInfo t None w)).
    unfold launches. cbn. repeat split; lia.
  - destruct (awaiting w !! k) as [[t p]|]; simplify_eq/=.
    destruct (tunnels w !! t) as [tn|]; simplify_eq/=.
    unfold Tunnel.launcher_callback.
    destruct r as [process|message]; cbn -[could_not_start].
    { left. unfold launches. cbn. repeat split; lia. }
    destruct (could_not_start message) eqn:Hm; cbn -[could_not_start].
    { left. unfold launches. cbn. repeat split; lia. }
    right. split; [done|]. split; [done|].
    destruct (BAILED (retry w)) eqn:Hb; cbn.
    { split; [done|]. left. done. }
    destruct (Z.geb_spec (connectFailures (retry w) + 1) MAX_CONNECT_RETRIES);
      cbn.
    { split; [done|]. right. left. repeat split; (done || lia). }
    split; [done|]. right. right. repeat split; try (done || lia).
    apply (launches_connect t (options tn)
             (set_retry {| connectFailures := connectFailures (retry w) + 1;
                           BAILED := false |}
                {| retry := retry w; tunnels := tunnels w;
                   promises := promises w;
                   awaiting := delete k (awaiting w);
                   closing := closing w; trace := trace w |})).
  - destruct (tunnels w !! t) as [tn|]; simplify_eq/=. left.
    destruct (tunnelInfo tn); simplify_eq/=; unfold launches; cbn;
      [|repeat split; lia].
    rewrite filter_app, length_app, filter_cons.
    case_decide; [done|]. cbn. repeat split; lia.
  - destruct (closing w !! k) as [p|]; simplify_eq/=. left.
    unfold launches. cbn. repeat split; lia.
Qed.

(** X7.  [connectFailures] counts the launcher failures that are not
    could-not-start failures, of all instances, and nothing else: a run
    adds exactly their number, and no success takes anything off. *)
Theorem failures_are_counted_exactly ins : ∀ w w',
  run w ins = Some w' ->
  connectFailures (retry w')
  = connectFailures (retry w) + occurrences is_transient_failure ins.
Proof.
  induction ins as [|i rest IH]; cbn; intros w w' Hrun.
  - simplify_eq. unfold occurrences. cbn. lia.
  - destruct (step w i) as [w1|] eqn:Hstep; simplify_eq/=.
    rewrite occurrences_cons, (IH w1 w' Hrun).
    destruct (step_accounting w i w1 Hstep)
      as [(Hr & _ & ->)|(-> & _ & Hc & _)]; [rewrite Hr|]; lia.
Qed.

Lemma latch_tracks_budget_run ins : ∀ w w',
  run w ins = Some w' ->
  BAILED (retry w) = (MAX_CONNECT_RETRIES <=? connectFailures (retry w)) ->
  BAILED (retry w') = (MAX_CONNECT_RETRIES <=? connectFailures (retry w')).
Proof.
  induction ins as [|i rest IH]; cbn; intros w w' Hrun Hinv.
  - by simplify_eq.
  - destruct (step w i) as [w1|] eqn:Hstep; simplify_eq/=.
    apply (IH w1 w' Hrun).
    destruct (step_accounting w i w1 Hstep)
      as [(Hr & _ & _)|(_ & _ & Hc & Hcases)]; [by rewrite Hr|].
    rewrite Hc.
    destruct Hcases as [(Hb & -> & _)|[(Hb & Hge & -> & _)|(Hb & Hlt & -> & _)]].
    + rewrite Hb in Hinv. symmetry in Hinv. apply Z.leb_le in Hinv.
      symmetry. apply Z.leb_le. lia.
    + symmetry. apply Z.leb_le. lia.
    + symmetry. apply Z.leb_gt. lia.
Qed.

(** X8.  In a process that started fresh, with a budget above 1, the latch
    is set exactly when [connectFailures] has reached
    [MAX_CONNECT_RETRIES]. *)
Theorem latch_set_iff_budget_used configs ins w :
  1 < MAX_CONNECT_RETRIES ->
  run (start configs) ins = Some w ->
  BAILED (retry w) = (MAX_CONNECT_RETRIES <=? connectFailures (retry w)).
Proof.
  intros Hmax Hrun. apply (latch_tracks_budget_run ins _ _ Hrun). cbn.
  symmetry. apply Z.leb_gt. lia.
Qed.

Lemma launches_bounded_run ins : ∀ w w' (base : Z),
  run w ins = Some w' ->
  Z.of_nat (launches w) - base <= connectFailures (retry w) - 1 ->
  Z.of_nat (launches w) - base <= Z.max 0 (MAX_CONNECT_RETRIES - 2) ->
  Z.of_nat (launches w') - (base + occurrences is_open ins)
  <= connectFailures (retry w') - 1
  ∧ Z.of_nat (launches w') - (base + occurrences is_open ins)
    <= Z.max 0 (MAX_CONNECT_RETRIES - 2).
Proof.
  induction ins as [|i rest IH]; cbn; intros w w' base Hrun H1 H2.
  - simplify_eq. unfold occurrences. cbn. lia.
  - destruct (step w i) as [w1|] eqn:Hstep; simplify_eq/=.
    rewrite occurrences_cons.
    replace (base + ((if is_open i then 1 else 0) + occurrences is_open rest))
      with ((base + (if is_open i then 1 else 0)) + occurrences is_open rest)
      by lia.
    destruct (step_accounting w i w1 Hstep)
      as [(Hr & Hl & _)|(_ & Ho & Hc & Hcases)].
    + apply (IH w1 w' _ Hrun); rewrite ?Hr; lia.
    + rewrite Ho.
      apply (IH w1 w' _ Hrun);
        destruct Hcases
          as [(_ & _ & Hl)|[(_ & _ & _ & Hl)|(_ & Hlt & _ & Hl)]];
        lia.
Qed.

(** X9.  The retry budget is shared by the whole process: in a process
    that started fresh, the launcher is started at most once per [open()]
    call plus [MAX_CONNECT_RETRIES - 2] times for retries, however the
    calls of the instances interleave. *)
Theorem launcher_calls_bounded configs ins w :
  run (start configs) ins = Some w ->
  Z.of_nat (launches w)
  <= occurrences is_open ins + Z.max 0 (MAX_CONNECT_RETRIES - 2).
Proof.
  intros Hrun.
  destruct (launches_bounded_run ins _ _ 0 Hrun) as [_ H]; cbn; lia.
Qed.

End TunnelBudget.

(** ** More on the tunnel supervisor: who settles which promise *)

Section TunnelPromises.

Import Tunnel.

Variable MAX_CONNECT_RETRIES : Z.
Variable settings : Settings.

#[local] Abbreviation step := (step MAX_CONNECT_RETRIES settings).
#[local] Abbreviation run := (run MAX_CONNECT_RETRIES settings).

Implicit Types (w : world) (i : input) (ins : list input).

Lemma run_two_steps w i j w1 w2 :
  step w i = Some w1 -> step w1 j = Some w2 -> run w [i; j] = Some w2.
Proof. intros H1 H2. cbn [Tunnel.run]. rewrite H1. cbn. by rewrite H2. Qed.

Lemma sound_fresh w q :
  sound w -> q ∈ held w -> (q < length (promises w))%nat.
Proof.
  intros [_ Hp] Hq. rewrite Forall_forall in Hp.
  eapply lookup_lt_Some. by apply Hp.
Qed.

(** One more held promise: a fresh, pending one. *)
Lemma sound_grow w w' :
  promises w' = promises w ++ [Pending] ->
  held w' ≡ₚ length (promises w) :: held w ->
  sound w -> sound w'.
Proof.
  intros Hprom Hheld Hs. pose proof Hs as [Hnd Hp]. split.
  - rewrite Hheld. apply NoDup_cons. split; [|done].
    intros Hin. apply (sound_fresh w) in Hin; [lia|done].
  - rewrite Hheld, Hprom. apply Forall_cons. split.
    + by rewrite list_lookup_middle.
    + rewrite Forall_forall in Hp. apply Forall_forall. intros q Hq.
      rewrite lookup_app_l; [by apply Hp|by apply (sound_fresh w)].
Qed.

(** One held promise less: it is no longer held, and may be settled. *)
Lemma sound_shrink w w' q x :
  held w ≡ₚ q :: held w' ->
  (promises w' = promises w ∨ promises w' = <[q := x]> (promises w)) ->
  sound w ->
  sound w' ∧ (q ∉ held w') ∧ promises w !! q = Some Pending.
Proof.
  intros Hheld Hprom [Hnd Hp]. rewrite Hheld in Hnd, Hp.
  apply NoDup_cons in Hnd as [Hnotin Hnd].
  apply Forall_cons in Hp as [Hq Hp].
  split; [|done]. split; [done|].
  rewrite Forall_forall in Hp. apply Forall_forall. intros q' Hq'.
  destruct Hprom as [-> | ->]; [by apply Hp|].
  rewrite list_lookup_insert_ne; [by apply Hp|]. by intros ->.
Qed.

Lemma held_remove_awaiting w k t q :
  awaiting w !! k = Some (t, q) ->
  held w ≡ₚ q :: ((delete k (awaiting w)).*2 ++ closing w).
Proof.
  intros Hk. unfold held.
  rewrite (delete_Permutation (awaiting w) k (t, q) Hk) at 1. done.
Qed.

Lemma held_remove_closing w k q :
  closing w !! k = Some q ->
  held w ≡ₚ q :: ((awaiting w).*2 ++ delete k (closing w)).
Proof.
  intros Hk. unfold held.
  rewrite (delete_Permutation (closing w) k q Hk) at 1.
  by rewrite Permutation_middle.
Qed.

Lemma held_add_awaiting (a : list (nat * nat)) (c : list nat) t n :
  (a ++ [(t, n)]).*2 ++ c ≡ₚ n :: (a.*2 ++ c).
Proof.
  rewrite fmap_app. cbn. rewrite <- app_assoc. cbn.
  by rewrite Permutation_middle.
Qed.

Lemma held_add_closing (a : list (nat * nat)) (c : list nat) n :
  a.*2 ++ (c ++ [n]) ≡ₚ n :: (a.*2 ++ c).
Proof. rewrite app_assoc. by rewrite <- Permutation_cons_append. Qed.

Lemma step_sound w i w' : sound w -> step w i = Some w' -> sound w'.
Proof.
  intros Hs. destruct i as [t|k r|t|k]; cbn; intros Hstep.
  - destruct (tunnels w !! t) as [tn|]; simplify_eq/=.
    apply (sound_grow w); [done| |done]. apply held_add_awaiting.
  - destruct (awaiting w !! k) as [[t q]|] eqn:Hk; simplify_eq/=.
    destruct (tunnels w !! t) as [tn|]; simplify_eq/=.
    pose proof (held_remove_awaiting w k t q Hk) as Hrem.
    set (w0 := {| retry := retry w; tunnels := tunnels w;
                  promises := promises w;
                  awaiting := delete k (awaiting w);
                  closing := closing w; trace := trace w |}).
    assert (Hsettle : ∀ x r0,
      sound (settle q x (set_retry r0 w0))).
    { intros x r0.
      apply (sound_shrink w (settle q x (set_retry r0 w0)) q x);
        [exact Hrem|by right|done]. }
    unfold Tunnel.launcher_callback. fold w0.
    destruct r as [process|message].
    { apply (sound_shrink w _ q Resolved); [exact Hrem|by right|done]. }
    destruct (could_not_start message).
    { apply (sound_shrink w _ q (Rejected (Message (default "" message))));
        [exact Hrem|by right|done]. }
    destruct (BAILED (retry w0)); [apply Hsettle|].
    destruct (_ >=? _); [apply Hsettle|].
    assert (Hs0 : sound w0)
      by (apply (sound_shrink w w0 q Pending); [exact Hrem|by left|done]).
    apply (sound_grow w0); [done| |done]. apply held_add_awaiting.
  - destruct (tunnels w !! t) as [tn|]; simplify_eq/=.
    destruct (tunnelInfo tn); simplify_eq/=.
    + apply (sound_grow w); [done| |done]. apply held_add_closing.
    + destruct Hs as [Hnd Hp]. split; [done|]. cbn.
      rewrite Forall_forall in Hp. apply Forall_forall. intros q Hq.
      rewrite lookup_app_l; [by apply Hp|].
      eapply lookup_lt_Some. by apply Hp.
  - destruct (closing w !! k) as [q|] eqn:Hk; simplify_eq/=.
    pose proof (held_remove_closing w k q Hk) as Hrem.
    apply (sound_shrink w _ q Resolved); [exact Hrem|by right|done].
Qed.

Lemma run_sound ins : ∀ w w', sound w -> run w ins = Some w' -> sound w'.
Proof.
  induction ins as [|i rest IH]; cbn; intros w w' Hs Hrun.
  - by simplify_eq.
  - destruct (step w i) as [w1|] eqn:Hstep; simplify_eq/=.
    eapply IH; [|exact Hrun]. by eapply step_sound.
Qed.

Lemma start_sound configs : sound (start configs).
Proof. split; [apply NoDup_nil_2|apply Forall_nil_2]. Qed.

(** After a transient failure below the budget the promise of the failed
    [connect()] is held by nobody and is still pending. *)
Lemma retry_orphans_promise w k t p tn message :
  sound w ->
  awaiting w !! k = Some (t, p) ->
  tunnels w !! t = Some tn ->
  could_not_start message = false ->
  BAILED (retry w) = false ->
  connectFailures (retry w) + 1 < MAX_CONNECT_RETRIES ->
  ∃ w1, step w (LauncherDone k (Down message)) = Some w1
        ∧ launches w1 = S (launches w)
        ∧ unheld p w1
        ∧ promises w1 !! p = Some Pending.
Proof.
  intros Hs Hk Ht Hm Hb Hlt.
  destruct (transient_failure_retries MAX_CONNECT_RETRIES settings
              w k t p tn message Hk Ht Hm Hb Hlt)
    as (w1 & Hstep & Hretry & Htrace & Hprom & Haw).
  exists w1. split; [done|].
  pose proof (held_remove_awaiting w k t p Hk) as Hrem.
  set (w0 := {| retry := retry w; tunnels := tunnels w;
                promises := promises w;
                awaiting := delete k (awaiting w);
                closing := closing w; trace := trace w |}).
  destruct (sound_shrink w w0 p Pending Hrem (or_introl eq_refl) Hs)
    as (Hs0 & Hnotin & Hpend).
  assert (Hlen : (p < length (promises w))%nat) by by eapply lookup_lt_Some.
  split; [|split].
  - unfold launches. rewrite Htrace, filter_app, length_app, filter_cons.
    case_decide; [cbn; lia|done].
  - assert (Hcl : closing w1 = closing w).
    { cbn in Hstep. rewrite Hk in Hstep. cbn in Hstep. rewrite Ht in Hstep.
      cbn in Hstep. injection Hstep as <-.
      unfold Tunnel.launcher_callback. cbn. rewrite Hm, Hb.
      by destruct (_ >=? _). }
    unfold unheld. rewrite Hprom, Haw, Hcl, length_app.
    split; [lia|]. unfold held in Hnotin. cbn in Hnotin.
    apply not_elem_of_app in Hnotin as [Hna Hnc]. split.
    + apply Forall_app. split.
      * apply Forall_forall. intros [t' q'] Hin. cbn. intros ->.
        apply Hna. apply list_elem_of_fmap. by exists (t', p).
      * apply Forall_singleton. cbn. lia.
    + apply Forall_forall. by intros q' Hin ->.
  - rewrite Hprom. by rewrite lookup_app_l.
Qed.

(** X10.  A retry abandons the promise of the attempt that failed.  In a
    process that started fresh, when a pending launcher call fails
    transiently below the budget, the launcher is started again, but the
    promise of the failed [connect()], the one [open()] returned if it was
    the first attempt, stays pending for ever: nothing that happens later
    resolves or rejects it. *)
Theorem retry_leaves_promise_pending configs ins0 w k t p tn message :
  run (start configs) ins0 = Some w ->
  awaiting w !! k = Some (t, p) ->
  tunnels w !! t = Some tn ->
  could_not_start message = false ->
  BAILED (retry w) = false ->
  connectFailures (retry w) + 1 < MAX_CONNECT_RETRIES ->
  ∃ w1, step w (LauncherDone k (Down message)) = Some w1
        ∧ launches w1 = S (launches w)
        ∧ (∀ ins w2, run w1 ins = Some w2 ->
             promises w2 !! p = Some Pending).
Proof.
  intros Hreach Hk Ht Hm Hb Hlt.
  assert (Hs : sound w) by (eapply run_sound; [apply start_sound|done]).
  destruct (retry_orphans_promise w k t p tn message Hs Hk Ht Hm Hb Hlt)
    as (w1 & Hstep & Hl & Hun & Hp).
  exists w1. split; [done|]. split; [done|].
  intros ins w2 Hrun.
  by rewrite (run_unheld MAX_CONNECT_RETRIES settings p ins w1 w2 Hun Hrun).
Qed.

(** X11.  A promise is settled by the callback of the call that holds it
    and by nothing else: in a process that started fresh, the promises
    held by pending launcher and [process.close] calls are distinct and
    all still pending. *)
Theorem held_promises_are_pending configs ins w :
  run (start configs) ins = Some w ->
  NoDup ((awaiting w).*2 ++ closing w)
  ∧ Forall (fun q => promises w !! q = Some Pending)
           ((awaiting w).*2 ++ closing w).
Proof. intros Hrun. eapply run_sound; [apply start_sound|done]. Qed.

(** X12.  When the launcher reports success for an instance, a following
    [close()] on that instance closes exactly the subprocess the launcher
    handed over, and its promise waits for the acknowledgment. *)
Theorem close_after_open_closes_that_process w k t p tn process :
  awaiting w !! k = Some (t, p) ->
  tunnels w !! t = Some tn ->
  ∃ w1 w2, step w (LauncherDone k (Up process)) = Some w1
           ∧ step w1 (CallClose t) = Some w2
           ∧ trace w2 = trace w ++ [ProcessClose process]
           ∧ closing w2 = closing w ++ [length (promises w)]
           ∧ promises w2 = <[p := Resolved]> (promises w) ++ [Pending].
Proof.
  intros Hk Ht. eexists. eexists. split.
  { cbn. rewrite Hk. cbn. rewrite Ht. cbn. reflexivity. }
  cbn. rewrite list_lookup_alter_eq, Ht. cbn.
  by rewrite length_insert.
Qed.

(** X13.  [open()] forgets the subprocess of an earlier [open()]: a
    [close()] that follows a new [open()] before the launcher has answered
    closes nothing and is resolved at once, whether or not the instance
    held a subprocess before. *)
Theorem close_after_reopen_closes_nothing w t tn :
  tunnels w !! t = Some tn ->
  ∃ w1 w2, step w (CallOpen t) = Some w1
           ∧ step w1 (CallClose t) = Some w2
           ∧ trace w2 = trace w ++ [Launch (sauceOptions settings (options tn))]
           ∧ closing w2 = closing w
           ∧ promises w2 = promises w ++ [Pending; Resolved].
Proof.
  intros Ht. eexists. eexists. split.
  { cbn. rewrite Ht. cbn. reflexivity. }
  cbn. rewrite list_lookup_alter_eq, Ht. cbn.
  by rewrite <- app_assoc.
Qed.

End TunnelPromises.

(** ** [setup]: the promise chain around [initialize] and [open] *)

Section SetupChain.

Import Tunnel Promise Lifecycle.

Variable MAX_CONNECT_RETRIES : Z.
Variable settings : Settings.

#[local] Abbreviation step := (step MAX_CONNECT_RETRIES settings).
#[local] Abbreviation run := (run MAX_CONNECT_RETRIES settings).
#[local] Abbreviation setup := (setup MAX_CONNECT_RETRIES settings).


Lemma new_Tunnel_sound cfg w : sound w -> sound (new_Tunnel cfg w).
Proof. done. Qed.


(** X15.  When the first launcher call of [setup] fails transiently below
    the budget, the promise [setup] returned never settles, whatever
    happens afterwards, even if the retry brings the tunnel up. *)
Theorem setup_hangs_after_retry cfg w message rest w' started result :
  sound w ->
  truthy (useTunnels cfg) = true ->
  truthy (username cfg) = true ->
  truthy (accessKey cfg) = true ->
  could_not_start message = false ->
  BAILED (retry w) = false ->
  connectFailures (retry w) + 1 < MAX_CONNECT_RETRIES ->
  setup cfg (Some Downloaded) w
    (LauncherDone (length (awaiting w)) (Down message) :: rest)
  = Some (w', started, result) ->
  result = Waits.
Proof.
  intros Hs Hu Hname Hkey Hm Hb Hlt. unfold Lifecycle.setup, initialize.
  rewrite Hu, Hname, Hkey. cbn -[could_not_start Tunnel.step].
  set (w0 := new_Tunnel cfg w).
  assert (Hopen : step w0 (CallOpen (length (tunnels w)))
                  = Some (connect settings (length (tunnels w)) cfg
                            (set_tunnelInfo (length (tunnels w)) None w0))).
  { cbn. by rewrite list_lookup_middle. }
  rewrite Hopen. cbn -[could_not_start Tunnel.step].
  set (w1 := connect settings (length (tunnels w)) cfg
               (set_tunnelInfo (length (tunnels w)) None w0)).
  assert (Hs1 : sound w1).
  { eapply (step_sound MAX_CONNECT_RETRIES settings); [|exact Hopen].
    by apply new_Tunnel_sound. }
  assert (Hk : awaiting w1 !! length (awaiting w)
               = Some (length (tunnels w), length (promises w))).
  { cbn. by rewrite list_lookup_middle. }
  assert (Ht : tunnels w1 !! length (tunnels w)
               = Some {| options := cfg; tunnelInfo := None |}).
  { cbn. rewrite list_lookup_alter_eq. by rewrite list_lookup_middle. }
  destruct (retry_orphans_promise MAX_CONNECT_RETRIES settings w1 _ _ _ _
              message Hs1 Hk Ht Hm Hb Hlt)
    as (w2 & Hstep & _ & Hun & Hp).
  rewrite Hstep. cbn -[could_not_start Tunnel.step].
  destruct (run w2 rest) as [w3|] eqn:Hrun; [|done].
  cbn. intros [= <- <- <-].
  unfold promise_outcome.
  rewrite (run_unheld MAX_CONNECT_RETRIES settings _ rest w2 w3 Hun Hrun).
  by rewrite Hp.
Qed.

End SetupChain.

(** ** More on [validateConfig] *)

Section ConfigFlow.

Import Facade Locks Promise Lifecycle.

Lemma length_app_slash s :
  String.length (s +:+ "/") = S (String.length s).
Proof. induction s as [|c s IH]; simpl; congruence. Qed.

Lemma substring_last_slash s :
  String.substring (String.length s) 1 (s +:+ "/") = "/".
Proof. induction s as [|c s IH]; simpl; congruence. Qed.

Lemma substring_init_slash s :
  String.substring 0 (String.length s) (s +:+ "/") = s.
Proof. induction s as [|c s IH]; simpl; congruence. Qed.

Lemma strip_trailing_slash_app s :
  strip_trailing_slash (VStr (s +:+ "/")) = VStr s.
Proof.
  unfold strip_trailing_slash. rewrite length_app_slash. cbn.
  rewrite Nat.sub_0_r, substring_last_slash, substring_init_slash. done.
Qed.

(** The fields of the config after [validateConfig] that no check and no
    generated id touch, whether it returns or throws. *)
Lemma validateConfig_fields argv process_env cfg opts guid :
  let e := default process_env (opts_env opts) in
  let c := (validateConfig argv process_env cfg opts guid).1 in
  locksServerLocation c = strip_trailing_slash (LOCKS_SERVER e)
  ∧ maxTunnels c = maxTunnels cfg
  ∧ locksOutageTimeout c = locksOutageTimeout cfg
  ∧ locksPollingInterval c = locksPollingInterval cfg
  ∧ locksRequestTimeout c = locksRequestTimeout cfg.
Proof.
  cbn. unfold validateConfig.
  repeat match goal with |- context [if ?b then _ else _] => destruct b end;
    done.
Qed.

(** X16.  A trailing slash of [LOCKS_SERVER] never shows in a request:
    after [validateConfig], however it completes, the lock client posts to
    [/claim] and [/release] directly under the address without the
    slash. *)
Theorem lock_server_slash_is_dropped
    argv process_env cfg opts guid (s : string) now0 (token : value) :
  s ≠ "" ->
  LOCKS_SERVER (default process_env (opts_env opts)) = VStr (s +:+ "/") ->
  let c := (validateConfig argv process_env cfg opts guid).1 in
  locksServerLocation c = VStr s
  ∧ acquire c now0 []
    = ([PostForm (s +:+ "/claim") (locksRequestTimeout cfg)], Waiting)
  ∧ release c token None
    = ([Request "POST" true (locksRequestTimeout cfg)
          (VObj [("token", token)]) (s +:+ "/release")], Waiting).
Proof.
  intros Hs He c.
  destruct (validateConfig_fields argv process_env cfg opts guid)
    as (Hloc & _ & _ & _ & Hreq).
  fold c in Hloc, Hreq. rewrite He, strip_trailing_slash_app in Hloc.
  assert (Htruthy : truthy (VStr s) = true).
  { cbn. apply negb_true_iff. by apply String.eqb_neq. }
  unfold acquire, release. rewrite Hloc, Htruthy, Hreq. cbn.
  by rewrite ?Hloc, ?Hreq.
Qed.

(** X17.  [validateConfig] is idempotent: run again with the same
    arguments on the config it left, it leaves the same config and
    completes the same way. *)
Theorem validateConfig_idempotent argv process_env cfg opts guid :
  validateConfig argv process_env
    (validateConfig argv process_env cfg opts guid).1 opts guid
  = validateConfig argv process_env cfg opts guid.
Proof.
  destruct (validateConfig_fields argv process_env cfg opts guid)
    as (_ & H1 & H2 & H3 & H4).
  cbn in H1, H2, H3, H4.
  assert (Hassigned : ∀ a e,
    assigned (validateConfig argv process_env cfg opts guid).1 a e
    = assigned cfg a e).
  { intros a e. unfold assigned. by rewrite H1, H2, H3, H4. }
  unfold validateConfig at 1. by rewrite Hassigned.
Qed.

(** X18.  A configuration that [validateConfig] has accepted for a sauce
    run passes the checks of [Tunnel.initialize], which goes on to the
    download; and if it asks for a tunnel of its own, the tunnel id is the
    generated one and there is no shared parent account. *)
Theorem validated_config_passes_initialize
    argv process_env cfg opts guid (c : config) d :
  validateConfig argv process_env cfg opts guid = (c, Returns) ->
  sauce_requested (default argv (opts_argv opts)) = true ->
  (initialize c d).1 = true
  ∧ (truthy (useTunnels c) = true ->
     sauceTunnelId c = VStr guid
     ∧ truthy (sharedSauceParentAccount c) = false).
Proof.
  unfold validateConfig, sauce_requested, initialize.
  set (a := default argv (opts_argv opts)).
  set (e := default process_env (opts_env opts)).
  intros Hv Hreq. rewrite Hreq in Hv.
  change (prop (assigned cfg a e) "username") with (SAUCE_USERNAME e) in Hv.
  change (prop (assigned cfg a e) "accessKey") with (SAUCE_ACCESS_KEY e) in Hv.
  destruct (truthy (SAUCE_USERNAME e)) eqn:Hu; [|done].
  destruct (truthy (SAUCE_ACCESS_KEY e)) eqn:Hk; [|done].
  cbn [andb negb] in Hv.
  destruct (truthy (sauce_create_tunnels a)) eqn:Hc; cbn [andb] in Hv.
  - destruct (truthy (sauce_tunnel_id a)) eqn:Hid; [done|].
    destruct (truthy (shared_sauce_parent_account a)) eqn:Hsh; [done|].
    cbn in Hv. rewrite Hid, Hc in Hv. cbn in Hv. injection Hv as <-.
    cbn. rewrite Hu, Hk. cbn. by rewrite Hsh.
  - cbn in Hv. rewrite Hc, andb_false_r in Hv. injection Hv as <-.
    cbn. rewrite Hu, Hk, Hc. cbn. done.
Qed.

End ConfigFlow.

(** ** [getProfiles] *)

Section ProfileList.

Import Promise Profiles.

Variable SauceBrowsers_get : value -> exn + list value.

#[local] Abbreviation profiles := (profiles SauceBrowsers_get).
#[local] Abbreviation getProfiles := (getProfiles SauceBrowsers_get).

Lemma split_commas_nonempty s : split_commas s ≠ [].
Proof.
  destruct s as [|c s]; cbn [split_commas]; [done|].
  destruct (String.eqb (String c EmptyString) ","); [done|].
  by destruct (split_commas s).
Qed.

(** Joining what [split] yields gives the string back. *)
Lemma concat_split_commas s : String.concat "," (split_commas s) = s.
Proof.
  induction s as [|c s IH]; cbn [split_commas]; [done|].
  pose proof (split_commas_nonempty s) as Hne.
  destruct (String.eqb (String c EmptyString) ",") eqn:Hc.
  - apply String.eqb_eq in Hc. injection Hc as ->.
    destruct (split_commas s) as [|first others]; [done|].
    change (String.concat "," (EmptyString :: first :: others))
      with (EmptyString +:+ "," +:+ String.concat "," (first :: others)).
    by rewrite IH.
  - destruct (split_commas s) as [|first others]; [done|].
    destruct others as [|second others]; cbn in *; by rewrite <- IH.
Qed.

Lemma profiles_ids browsers : ∀ ps,
  profiles browsers = inr ps -> ids ps = browsers.
Proof.
  induction browsers as [|browser rest IH]; cbn; intros ps Hps.
  - by simplify_eq.
  - unfold profile in Hps.
    destruct (SauceBrowsers_get _) as [e|found]; [done|].
    destruct (profiles rest) as [e|ps'] eqn:Hrest; [done|].
    simplify_eq. unfold ids in *. cbn. by rewrite (IH ps').
Qed.

Lemma profiles_throw browsers : ∀ b e,
  b ∈ browsers ->
  SauceBrowsers_get (VObj [("id", VStr b)]) = inl e ->
  ∃ e', profiles browsers = inl e'.
Proof.
  induction browsers as [|browser rest IH]; intros b e Hin Hget;
    [by apply not_elem_of_nil in Hin|].
  cbn. unfold profile.
  apply elem_of_cons in Hin as [->|Hin].
  - rewrite Hget. eauto.
  - destruct (SauceBrowsers_get (VObj [("id", VStr browser)]))
      as [e0|found]; [eauto|].
    destruct (IH b e Hin Hget) as [e' ->]. eauto.
Qed.

(** X19.  Without [sauce_browser], the profiles [getProfiles] resolves
    with are one per comma-separated entry of [sauce_browsers], in order:
    their ids joined with commas give the argument back. *)
Theorem getProfiles_ids_round_trip (sauce_browser : value) (s : string) ps :
  truthy sauce_browser = false ->
  getProfiles sauce_browser (VStr s) (Fulfils tt) = Fulfils (VArr ps) ->
  String.concat "," (ids ps) = s
  ∧ ids ps = split_commas s.
Proof.
  intros Hsb. unfold Profiles.getProfiles. cbn -[truthy]. rewrite Hsb.
  destruct (truthy (VStr s)); [|done].
  destruct (profiles (split_commas s)) as [e|ps'] eqn:Hps; [done|].
  intros [= <-]. rewrite (profiles_ids _ _ Hps).
  split; [apply concat_split_commas|done].
Qed.

(** X20.  [getProfiles] gives all profiles or none: if the catalogue
    lookup throws for one entry of [sauce_browsers], the promise is
    rejected and no partial list is delivered. *)
Theorem getProfiles_all_or_nothing (sauce_browser : value) (s b : string) e :
  truthy sauce_browser = false ->
  b ∈ split_commas s ->
  s ≠ "" ->
  SauceBrowsers_get (VObj [("id", VStr b)]) = inl e ->
  ∃ e', getProfiles sauce_browser (VStr s) (Fulfils tt)
        = Rejects (LookupThrew e').
Proof.
  intros Hsb Hin Hs Hget. unfold Profiles.getProfiles. cbn -[truthy].
  rewrite Hsb.
  assert (truthy (VStr s) = true) as ->.
  { cbn. apply negb_true_iff. by apply String.eqb_neq. }
  destruct (profiles_throw _ b e Hin Hget) as [e' ->]. eauto.
Qed.

End ProfileList.

(** ** Concrete runs for the properties above *)

Section MoreRuns.

Import Tunnel Promise Lifecycle Facade Profiles.

Lemma failures_are_counted_exactly_witness :
  ∃ w, one_open_failing 3 = Some w ∧ connectFailures (retry w) = 4.
Proof.
  eexists. split; [vm_compute; reflexivity|].
  refine (failures_are_counted_exactly default_MAX_CONNECT_RETRIES
            sample_settings
            (CallOpen 0 :: repeat (LauncherDone 0 transient) 3)
            (start [sample_config]) _ _).
  vm_compute. reflexivity.
Defined.

Lemma latch_set_iff_budget_used_witness :
  ∃ w, one_open_failing 9 = Some w
       ∧ BAILED (retry w) = (10 <=? connectFailures (retry w)).
Proof.
  eexists. split; [vm_compute; reflexivity|].
  refine (latch_set_iff_budget_used default_MAX_CONNECT_RETRIES
            sample_settings [sample_config]
            (CallOpen 0 :: repeat (LauncherDone 0 transient) 9) _
            eq_refl _).
  vm_compute. reflexivity.
Defined.

Lemma launcher_calls_bounded_witness :
  ∃ w, ten_opens_failing 10 = Some w ∧ Z.of_nat (launches w) <= 18.
Proof.
  eexists. split; [vm_compute; reflexivity|].
  refine (launcher_calls_bounded default_MAX_CONNECT_RETRIES
            sample_settings (repeat sample_config 10)
            (map CallOpen (seq 0 10) ++ repeat (LauncherDone 0 transient) 10)
            _ _).
  vm_compute. reflexivity.
Defined.

Lemma retry_leaves_promise_pending_witness :
  ∃ w2, run10 (start [sample_config])
          [CallOpen 0; LauncherDone 0 transient; LauncherDone 0 (Up 7)]
        = Some w2
        ∧ promises w2 !! 0%nat = Some Pending
        ∧ promises w2 !! 1%nat = Some Resolved.
Proof.
  destruct (retry_leaves_promise_pending default_MAX_CONNECT_RETRIES
              sample_settings [sample_config] [CallOpen 0]
              (connect sample_settings 0 sample_config
                 (set_tunnelInfo 0 None (start [sample_config])))
              0%nat 0%nat 0%nat
              {| options := sample_config; tunnelInfo := None |}
              (Some "Sauce Connect tunnel did not come up in time"))
    as (w1 & Hstep & _ & Hpending);
    [vm_compute; reflexivity|reflexivity|reflexivity|reflexivity
    |reflexivity|reflexivity|].
  vm_compute in Hstep. injection Hstep as <-.
  eexists. split; [vm_compute; reflexivity|]. split; [|reflexivity].
  apply (Hpending [LauncherDone 0 (Up 7)]). vm_compute. reflexivity.
Defined.

Lemma held_promises_are_pending_witness :
  ∃ w, ten_opens_failing 3 = Some w
       ∧ NoDup ((awaiting w).*2 ++ closing w)
       ∧ length (awaiting w) = 10%nat.
Proof.
  eexists. split; [vm_compute; reflexivity|]. split; [|reflexivity].
  refine (proj1 (held_promises_are_pending default_MAX_CONNECT_RETRIES
                   sample_settings (repeat sample_config 10)
                   (map CallOpen (seq 0 10)
                    ++ repeat (LauncherDone 0 transient) 3) _ _)).
  vm_compute. reflexivity.
Defined.

Lemma close_after_open_closes_that_process_witness :
  ∃ w2, run10 latched [LauncherDone 0 (Up 7); CallClose 0] = Some w2
        ∧ trace w2 = trace latched ++ [ProcessClose 7].
Proof.
  destruct (close_after_open_closes_that_process
              default_MAX_CONNECT_RETRIES sample_settings latched
              0%nat 0%nat 0%nat
              {| options := sample_config; tunnelInfo := None |} 7%nat
              eq_refl eq_refl)
    as (w1 & w2 & Hs1 & Hs2 & Htrace & _).
  exists w2. split; [|exact Htrace].
  exact (run_two_steps _ _ _ _ _ _ _ Hs1 Hs2).
Defined.

Lemma close_after_reopen_closes_nothing_witness :
  ∃ w2, run10 opened [CallOpen 0; CallClose 0] = Some w2
        ∧ closing w2 = []
        ∧ promises w2 = [Resolved; Pending; Resolved].
Proof.
  destruct (close_after_reopen_closes_nothing
              default_MAX_CONNECT_RETRIES sample_settings opened 0%nat
              {| options := sample_config; tunnelInfo := Some 7%nat |}
              eq_refl)
    as (w1 & w2 & Hs1 & Hs2 & _ & Hcl & Hprom).
  exists w2. split; [|split; [exact Hcl|exact Hprom]].
  exact (run_two_steps _ _ _ _ _ _ _ Hs1 Hs2).
Defined.


Lemma setup_hangs_after_retry_witness :
  ∃ w', setup default_MAX_CONNECT_RETRIES sample_settings
          sample_config (Some Downloaded) (start [])
          [LauncherDone 0 transient; LauncherDone 0 (Up 7)]
        = Some (w', true, Waits).
Proof.
  destruct (setup default_MAX_CONNECT_RETRIES sample_settings
              sample_config (Some Downloaded) (start [])
              [LauncherDone 0 transient; LauncherDone 0 (Up 7)])
    as [[[w' started] result]|] eqn:Hsetup;
    [|vm_compute in Hsetup; discriminate].
  rewrite (setup_hangs_after_retry default_MAX_CONNECT_RETRIES
             sample_settings sample_config (start [])
             (Some "Sauce Connect tunnel did not come up in time")
             _ w' started result (start_sound [])
             eq_refl eq_refl eq_refl eq_refl eq_refl eq_refl Hsetup).
  assert (started = true) as ->
    by (vm_compute in Hsetup; by injection Hsetup).
  by exists w'.
Defined.

Lemma lock_server_slash_is_dropped_witness :
  locksServerLocation
    (validateConfig no_sauce_argv slash_env initial_config no_opts "guid-1").1
  = VStr "http://locks:3000"
  ∧ Locks.acquire
      (validateConfig no_sauce_argv slash_env initial_config no_opts "guid-1").1
      0 []
    = ([Locks.PostForm "http://locks:3000/claim" 2500], Locks.Waiting).
Proof.
  destruct (lock_server_slash_is_dropped no_sauce_argv slash_env
              initial_config no_opts "guid-1" "http://locks:3000" 0
              (VStr "abc")) as (Hloc & Hacq & _);
    [done|reflexivity|].
  split; [exact Hloc|exact Hacq].
Defined.

Lemma validated_config_passes_initialize_witness :
  (initialize
     (validateConfig sauce_argv slash_env initial_config no_opts "guid-1").1
     None).1 = true
  ∧ sauceTunnelId
      (validateConfig sauce_argv slash_env initial_config no_opts "guid-1").1
    = VStr "guid-1".
Proof.
  destruct (validated_config_passes_initialize sauce_argv slash_env
              initial_config no_opts "guid-1"
              (validateConfig sauce_argv slash_env initial_config no_opts
                 "guid-1").1 None)
    as [Hinit Htunnel]; [reflexivity|reflexivity|].
  split; [exact Hinit|]. exact (proj1 (Htunnel eq_refl)).
Defined.

Lemma getProfiles_ids_round_trip_witness :
  ∃ ps, getProfiles sample_catalogue VUndefined
          (VStr "chrome_latest,firefox_latest") (Fulfils tt)
        = Fulfils (VArr ps)
        ∧ String.concat "," (ids ps) = "chrome_latest,firefox_latest"
        ∧ length ps = 2%nat.
Proof.
  destruct (getProfiles sample_catalogue VUndefined
              (VStr "chrome_latest,firefox_latest") (Fulfils tt))
    as [|[| | | | |ps|]|] eqn:Hget;
    try (vm_compute in Hget; discriminate).
  exists ps. split; [done|].
  destruct (getProfiles_ids_round_trip sample_catalogue VUndefined
              "chrome_latest,firefox_latest" ps eq_refl Hget) as [Hjoin Hids].
  split; [exact Hjoin|].
  apply (f_equal length) in Hids. unfold ids in Hids.
  rewrite length_map in Hids. exact Hids.
Defined.

Lemma getProfiles_all_or_nothing_witness :
  ∃ e, getProfiles sample_catalogue VUndefined
         (VStr "chrome_latest,ie_6") (Fulfils tt)
       = Rejects (LookupThrew e).
Proof.
  apply (getProfiles_all_or_nothing sample_catalogue VUndefined
           "chrome_latest,ie_6" "ie_6" (Error "unsupported browser")).
  - reflexivity.
  - vm_compute. apply list_elem_of_further, list_elem_of_here.
  - done.
  - reflexivity.
Defined.

Lemma callback_called_once_if_it_returns_witness :
  ∃ s, Polling.run sample_config 0 Polling.returns
         (Polling.begin sample_config Polling.returns)
         [Polling.Reply not_json 100; Polling.TimerFires;
          Polling.Reply (accepted (VStr "abc")) 2700]
       = Some s
       ∧ (Locks.count Locks.is_callback (Polling.emitted s) = 1%nat
          ∧ ∀ e, Polling.phase_of s ≠ Polling.Escaped e).
Proof.
  eexists. split; [vm_compute; reflexivity|].
  refine (callback_called_once_if_it_returns sample_config 0
            Polling.returns
            [Polling.Reply not_json 100; Polling.TimerFires;
             Polling.Reply (accepted (VStr "abc")) 2700]
            _ (fun _ => eq_refl) _).
  vm_compute. reflexivity.
Defined.

Lemma requests_replies_and_timers_witness :
  ∃ s, Polling.run sample_config 0 Polling.returns
         (Polling.begin sample_config Polling.returns)
         [Polling.Reply not_json 100]
       = Some s
       ∧ (Locks.count Locks.is_network (Polling.emitted s) = 1%nat
          ∧ Locks.count Locks.is_network (Polling.emitted s) = 1%nat
          ∧ timers (Polling.emitted s) = 1%nat).
Proof.
  eexists. split; [vm_compute; reflexivity|].
  refine (requests_replies_and_timers sample_config 0 Polling.returns
            [Polling.Reply not_json 100] _ eq_refl _).
  vm_compute. reflexivity.
Defined.

Lemma success_after_malformed_replies_witness :
  Polling.run sample_config 0 Polling.returns
    (Polling.begin sample_config Polling.returns)
    [Polling.Reply not_json 100; Polling.TimerFires;
     Polling.Reply (accepted (VStr "abc")) 2700]
  = Some {| Polling.phase_of := Polling.Done;
            Polling.calls := 1;
            Polling.emitted :=
              [Locks.PostForm "http://locks:3000/claim" 2500;
               Locks.SetTimeout 2500;
               Locks.PostForm "http://locks:3000/claim" 2500;
               Locks.Callback None (VObj [("token", VStr "abc")])] |}.
Proof.
  refine (proj1 (success_after_malformed_replies sample_config 0
                   Polling.returns
                   [("Unexpected token < in JSON", 100)]
                   (VObj [("accepted", VBool true); ("token", VStr "abc");
                          ("message", VStr "Claim accepted")])
                   2700 eq_refl _ eq_refl eq_refl)).
  apply Forall_singleton. cbn. lia.
Defined.


End MoreRuns.
